(** * Poseidon 2.0 analysis engine: a shallow embedding and its properties

    The engine of [src/components/poseidon/AnalysisEngine.ts] is embedded
    function by function.  Conventions of the embedding:

    - a [Date] is its [getTime()] value, an integer number of milliseconds
      ([Z]);
    - a JavaScript [number] holding a level, a frequency or a power is an
      exact rational ([Q]): the comparisons and the arithmetic of the source
      are kept, rounding to binary64 is not modelled, and neither are the
      non-finite values (a division by zero yields [0] in [Q]); array
      indices and counters are [nat].  The theorems on bin frequencies and
      on window means therefore name the expression the source evaluates
      ([i * freqStep], [sum / window.length]) and not a closed form that is
      equal to it in [Q] only;
    - [Math.cos], [Math.sin], [Math.sqrt] and [Math.PI] are supplied by the
      JavaScript runtime and are taken as a parameter ([MathLib]);
    - the [id] of an event is kept as its components, and the two display
      strings [label] and [explanation] (built with [toFixed]) are left
      out of the event record. *)

From Stdlib Require Import String.
From Stdlib Require Import ZArith QArith Qabs Qround List Bool Lia Lqa.
From Stdlib Require Import Permutation Sorted.
Import ListNotations.

Set Implicit Arguments.

(** ** Numbers *)

Module Num.

(** [x > y], [x >= y], [x < y], [x <= y] on numbers. *)
Definition gtb (x y : Q) : bool := negb (Qle_bool x y).
Definition geb (x y : Q) : bool := Qle_bool y x.
Definition ltb (x y : Q) : bool := negb (Qle_bool y x).
Definition leb (x y : Q) : bool := Qle_bool x y.

Definition ofNat (n : nat) : Q := inject_Z (Z.of_nat n).

(** [a.reduce((sum, v) => sum + v, 0)]. *)
Definition sum (l : list Q) : Q := fold_left Qplus l 0%Q.

(** [x || 0] on a number. *)
Definition orZero (x : Q) : Q := if Qeq_bool x 0 then 0%Q else x.

End Num.

(** The part of the runtime's [Math] object the engine calls. *)
Record MathLib := mkMath {
  Math_cos : Q -> Q;
  Math_sin : Q -> Q;
  Math_sqrt : Q -> Q;
  Math_PI : Q
}.

(** ** Arrays *)

Section Arrays.
Context {A : Type}.

(** [a.slice(start, end)]. *)
Definition slice (start stop : nat) (l : list A) : list A :=
  firstn (stop - start) (skipn start l).

(** [a.splice(k, 0, x)]. *)
Definition splice (k : nat) (x : A) (l : list A) : list A :=
  firstn k l ++ x :: skipn k l.

(** [a.map((x, index) => f x index)]. *)
Fixpoint mapi_from {B : Type} (f : A -> nat -> B) (i : nat) (l : list A) : list B :=
  match l with
  | [] => []
  | x :: l' => f x i :: mapi_from f (S i) l'
  end.

Definition mapi {B : Type} (f : A -> nat -> B) (l : list A) : list B :=
  mapi_from f 0 l.

(** [a.findIndex(p)], with [None] for [-1]. *)
Fixpoint findIndex_from (p : A -> bool) (i : nat) (l : list A) : option nat :=
  match l with
  | [] => None
  | x :: l' => if p x then Some i else findIndex_from p (S i) l'
  end.

Definition findIndex (p : A -> bool) (l : list A) : option nat :=
  findIndex_from p 0 l.

(** [a.sort(cmp)] for a comparator given as [leb x y := cmp(x, y) <= 0]:
    the sort is stable, as ECMAScript requires. *)
Variable leb : A -> A -> bool.

Fixpoint insert (x : A) (l : list A) : list A :=
  match l with
  | [] => [x]
  | y :: l' => if leb x y then x :: l else y :: insert x l'
  end.

Definition sortBy (l : list A) : list A := fold_right insert [] l.

End Arrays.

(** ** Data model ([src/types/poseidon.ts]) *)

Record DataPoint := mkPoint {
  timestamp : Z;
  seaLevel : Q;
  originalIndex : Z
}.

(** [{...point, seaLevel: v}]. *)
Definition withLevel (point : DataPoint) (v : Q) : DataPoint :=
  mkPoint (timestamp point) v (originalIndex point).

(** Default of an array read; every read of the engine is in range. *)
Definition noPoint : DataPoint := mkPoint 0 0 0.

Definition at_ (l : list DataPoint) (i : nat) : DataPoint := nth i l noPoint.

Definition levels (l : list DataPoint) : list Q := map seaLevel l.

Record ProcessedData := mkProcessed {
  original : list DataPoint;
  detrended : list DataPoint;
  residuals : list DataPoint;
  tidal : list DataPoint
}.

Inductive Confidence := Low | Medium | High.

Inductive EventType :=
| RisingTide | FallingTide | HighTide | LowTide | StormSurge | Seiche
| Infragravity | Spike | Flatline | Gap | ExtremeLevel | AliasedActivity.

(** The [id] template strings, by their components. *)
Inductive EventId :=
| IdIndexed (tag : string) (n : Z)          (* `tag-${n}` *)
| IdSeiche (freq : Q) (index : nat)         (* `seiche-${freq.toFixed(4)}-${index}` *)
| IdPlain (tag : string).

Inductive PropValue :=
| PNum (v : Q)
| PText (s : string).

Record DetectedEvent := mkEvent {
  id : EventId;
  type : EventType;
  startTime : Z;
  endTime : option Z;
  confidence : Confidence;
  amplitude : option Q;
  period : option Q;
  peak : option Z;
  properties : list (string * PropValue)
}.

Inductive TideRemovalMethod := harmonic | lowpass.

Record AnalysisConfig := mkConfig {
  tideRemovalMethod : TideRemovalMethod;
  extremeThreshold : Q;
  confidenceThreshold : Confidence;
  cfg_startTime : option Z;
  cfg_endTime : option Z
}.

Record SpectralAnalysis := mkSpectral {
  frequencies : list Q;
  powers : list Q;
  dominantFrequency : Q;
  dominantPeriod : Q
}.

(** ** The engine: construction and preprocessing *)

Record PoseidonAnalysisEngine := mkEngine {
  data : list DataPoint;
  config : AnalysisConfig
}.

Definition byTimestamp (a b : DataPoint) : bool := (timestamp a <=? timestamp b)%Z.

Definition constructor (input : list DataPoint) (cfg : AnalysisConfig) : PoseidonAnalysisEngine :=
  mkEngine (sortBy byTimestamp input) cfg.

Definition isSome {A : Type} (o : option A) : bool :=
  match o with Some _ => true | None => false end.

Definition filterDataByTimeRange (this : PoseidonAnalysisEngine) : list DataPoint :=
  let cfg := config this in
  if negb (isSome (cfg_startTime cfg)) && negb (isSome (cfg_endTime cfg)) then data this
  else
    filter (fun point =>
      let t := timestamp point in
      (* [startTime?.getTime() || 0] *)
      let start := match cfg_startTime cfg with Some s => s | None => 0%Z end in
      (* [endTime?.getTime() || Infinity]: an end at the epoch is falsy *)
      let stop := match cfg_endTime cfg with
                  | Some e => if (e =? 0)%Z then None else Some e
                  | None => None
                  end in
      (start <=? t)%Z && match stop with Some e => (t <=? e)%Z | None => true end)
      (data this).

Definition smoothData (input : list DataPoint) : list DataPoint :=
  let windowSize := 5%nat in
  mapi (fun point index =>
    let start := Nat.max 0 (index - windowSize / 2) in
    let stop := Nat.min (length input) (index + windowSize / 2 + 1) in
    let window := sortBy Num.leb (map seaLevel (slice start stop input)) in
    let median := nth (length window / 2) window 0%Q in
    withLevel point median) input.

Definition expectedInterval : Z := 60000.

(** One pass of the inner loop of [fillGaps]: the [j]-th interpolated sample
    is spliced in at index [i - 1 + j]. *)
Definition fillGaps_insert (i : nat) (steps : Z) (levelDiff : Q)
    (result : list DataPoint) (j : nat) : list DataPoint :=
  let prev := at_ result (i - 1) in
  let newTimestamp := (timestamp prev + Z.of_nat j * expectedInterval)%Z in
  let newLevel := (seaLevel prev + levelDiff * Num.ofNat j / inject_Z (steps + 1))%Q in
  splice (i - 1 + j) (mkPoint newTimestamp newLevel (-1)) result.

(** The outer loop of [fillGaps], on the array being spliced; each pass
    moves [i] one step nearer to the end of [result], so [length data]
    passes suffice. *)
Fixpoint fillGaps_loop (fuel : nat) (result : list DataPoint) (i : nat) : list DataPoint :=
  match fuel with
  | O => result
  | S fuel' =>
    if (i <? length result)%nat then
      let timeDiff := (timestamp (at_ result i) - timestamp (at_ result (i - 1)))%Z in
      if (timeDiff >? expectedInterval * 2)%Z then
        let steps := (timeDiff / expectedInterval - 1)%Z in
        let levelDiff := (seaLevel (at_ result i) - seaLevel (at_ result (i - 1)))%Q in
        let result' :=
          fold_left (fillGaps_insert i steps levelDiff) (seq 1 (Z.to_nat steps)) result in
        fillGaps_loop fuel' result' (i + Z.to_nat steps + 1)
      else fillGaps_loop fuel' result (i + 1)
    else result
  end.

Definition fillGaps (input : list DataPoint) : list DataPoint :=
  fillGaps_loop (length input) input 1.

(** ** Tidal separation *)

Section WithMath.
Variable M : MathLib.

Definition estimateAmplitude (values times : list Q) (omega : Q) : Q :=
  let '(sumCos, sumSin) :=
    fold_left (fun '(sumCos, sumSin) i =>
      let v := nth i values 0%Q in
      let t := nth i times 0%Q in
      ((sumCos + v * Math_cos M (omega * t))%Q,
       (sumSin + v * Math_sin M (omega * t))%Q))
      (seq 0 (length values)) (0%Q, 0%Q) in
  (Math_sqrt M (sumCos * sumCos + sumSin * sumSin) / (Num.ofNat (length values) / 2))%Q.

Definition tidalPeriods : list Q := [(1242 # 100); 12; (2393 # 100); (2582 # 100)]%Q.

Definition harmonicTidalFit (input : list DataPoint) : list DataPoint :=
  let values := map seaLevel input in
  let times := map (fun p => (inject_Z (timestamp p) / inject_Z (1000 * 3600))%Q) input in
  let mean := (Num.sum values / Num.ofNat (length values))%Q in
  mapi (fun point i =>
    let tidalValue :=
      fold_left (fun tidalValue period =>
        let omega := (2 * Math_PI M / period)%Q in
        let amplitude := estimateAmplitude values times omega in
        (tidalValue + amplitude * Math_cos M (omega * nth i times 0))%Q)
        tidalPeriods mean in
    withLevel point tidalValue) input.

Definition lowpassTidalFilter (input : list DataPoint) : list DataPoint :=
  let windowHours := 4%nat in
  let windowSize := (windowHours * 60)%nat in
  mapi (fun point index =>
    let start := Nat.max 0 (index - windowSize) in
    let stop := Nat.min (length input) (index + windowSize + 1) in
    let window := slice start stop input in
    let sum := fold_left (fun acc p => (acc + seaLevel p)%Q) window 0%Q in
    let tidalLevel := (sum / Num.ofNat (length window))%Q in
    withLevel point tidalLevel) input.

Definition extractTidalComponent (cfg : AnalysisConfig) (input : list DataPoint) : list DataPoint :=
  match tideRemovalMethod cfg with
  | harmonic => harmonicTidalFit input
  | lowpass => lowpassTidalFilter input
  end.

(** [tidal[index]?.seaLevel || 0]. *)
Definition tidalLevelAt (tidal : list DataPoint) (index : nat) : Q :=
  match nth_error tidal index with
  | Some t => Num.orZero (seaLevel t)
  | None => 0%Q
  end.

Definition detrendData (original tidal : list DataPoint) : list DataPoint :=
  mapi (fun point index => withLevel point (seaLevel point - tidalLevelAt tidal index)%Q) original.

Definition calculateResiduals (original tidal : list DataPoint) : list DataPoint :=
  detrendData original tidal.


(** ** Spectral analysis *)

(** [Σ_j values[j]·cos(2π·freq·j) + values[j]·sin(2π·freq·j)], summed in
    index order; shared by [computeSpectralAnalysis] and
    [calculateWindowEnergy]. *)
Definition correlate (values : list Q) (freq : Q) : Q :=
  fold_left (fun acc j =>
    let v := nth j values 0%Q in
    (acc + (v * Math_cos M (2 * Math_PI M * freq * Num.ofNat j)
            + v * Math_sin M (2 * Math_PI M * freq * Num.ofNat j)))%Q)
    (seq 0 (length values)) 0%Q.

(** The loop [for (let i = 0; i < n / 2; i++)] of [computeSpectralAnalysis];
    [n / 2] is a fractional bound when [n] is odd. *)
Fixpoint spectral_loop (fuel : nat) (values : list Q) (freqStep : Q) (i : nat)
    (acc : list Q * list Q) : list Q * list Q :=
  match fuel with
  | O => acc
  | S fuel' =>
    let n := length values in
    if Num.ltb (Num.ofNat i) (Num.ofNat n / 2) then
      let freq := (Num.ofNat i * freqStep)%Q in
      let power := correlate values freq in
      spectral_loop fuel' values freqStep (S i)
        (fst acc ++ [freq], snd acc ++ [(Qabs power / Num.ofNat n)%Q])
    else acc
  end.

(** [powers.forEach] searching the dominant frequency; the state is
    [(maxPower, dominantFreq)]. *)
Definition dominant_step (frequencies powers : list Q) (st : Q * Q) (i : nat) : Q * Q :=
  let power := nth i powers 0%Q in
  if Num.gtb power (fst st) && Num.gtb (nth i frequencies 0%Q) 0 then
    (power, nth i frequencies 0%Q)
  else st.

Definition computeSpectralAnalysis (input : list DataPoint) : SpectralAnalysis :=
  let values := map seaLevel input in
  let n := length values in
  let maxFreq := (1 # 2)%Q in
  let freqStep := (maxFreq / (Num.ofNat n / 2))%Q in
  let '(frequencies, powers) := spectral_loop n values freqStep 0 ([], []) in
  let '(maxPower, dominantFreq) :=
    fold_left (dominant_step frequencies powers) (seq 0 (length powers)) (0%Q, 0%Q) in
  mkSpectral frequencies powers dominantFreq
    (if Num.gtb dominantFreq 0 then (1 / dominantFreq)%Q else 0%Q).

Definition calculateWindowEnergy (window : list DataPoint) (frequency : Q) : Q :=
  let values := map seaLevel window in
  (Qabs (correlate values frequency) / Num.ofNat (length values))%Q.

Definition calculateEnergyThreshold (input : list DataPoint) (frequency : Q) : Q :=
  (calculateWindowEnergy input frequency * (1 # 2))%Q.

(** The strided loop of [findEnergyBursts]. *)
Fixpoint findEnergyBursts_loop (fuel : nat) (input : list DataPoint) (frequency : Q)
    (windowSize i : nat) (bursts : list (Z * Z)) : list (Z * Z) :=
  match fuel with
  | O => bursts
  | S fuel' =>
    if (Z.of_nat i <? Z.of_nat (length input) - Z.of_nat windowSize)%Z then
      let window := slice i (i + windowSize) input in
      let energy := calculateWindowEnergy window frequency in
      let bursts' :=
        if Num.gtb energy (calculateEnergyThreshold input frequency)
        then bursts ++ [(timestamp (at_ window 0), timestamp (at_ window (length window - 1)))]
        else bursts in
      findEnergyBursts_loop fuel' input frequency windowSize (i + windowSize / 2) bursts'
    else bursts
  end.

Definition findEnergyBursts (input : list DataPoint) (frequency period : Q) : list (Z * Z) :=
  let windowSize := Z.to_nat (Z.max 10 (Qfloor (period * 2))) in
  findEnergyBursts_loop (length input) input frequency windowSize 0 [].

Definition calculateSpectralThreshold (powers : list Q) : Q :=
  let mean := (Num.sum powers / Num.ofNat (length powers))%Q in
  let variance :=
    (fold_left (fun sum p => sum + (p - mean) ^ 2) powers 0 / Num.ofNat (length powers))%Q in
  (mean + Math_sqrt M variance)%Q.

Definition calculateMovingVariance (input : list DataPoint) (windowSize : nat) : list Q :=
  map (fun i =>
    let window := map seaLevel (slice i (i + windowSize) input) in
    let mean := (Num.sum window / Num.ofNat (length window))%Q in
    (fold_left (fun sum val => sum + (val - mean) ^ 2) window 0 / Num.ofNat (length window))%Q)
    (seq 0 (length input - windowSize)).

Definition calculateVarianceThreshold (variance : list Q) : Q :=
  let mean := (Num.sum variance / Num.ofNat (length variance))%Q in
  let std :=
    Math_sqrt M
      (fold_left (fun sum v => sum + (v - mean) ^ 2) variance 0 / Num.ofNat (length variance))%Q in
  (mean + 2 * std)%Q.

(** ** Event detectors *)

Definition tideThreshold : Q := 2 # 100.

(** The body of the loop of [detectTidalPhases] at index [i]. *)
Definition tidalPhasesAt (tidal : list DataPoint) (i : nat) : list DetectedEvent :=
  let threshold := tideThreshold in
  let prev := at_ tidal (i - 1) in
  let curr := at_ tidal i in
  let next := at_ tidal (i + 1) in
  let prevSlope := (seaLevel curr - seaLevel prev)%Q in
  let nextSlope := (seaLevel next - seaLevel curr)%Q in
  (if Num.gtb prevSlope threshold && Num.ltb nextSlope (- threshold) then
     [mkEvent (IdIndexed "high-tide" (Z.of_nat i)) HighTide (timestamp curr) None High
        (Some (seaLevel curr)) None None
        [("level", PNum (seaLevel curr)); ("slope_in", PNum prevSlope);
         ("slope_out", PNum nextSlope)]%string]
   else [])
  ++
  (if Num.ltb prevSlope (- threshold) && Num.gtb nextSlope threshold then
     [mkEvent (IdIndexed "low-tide" (Z.of_nat i)) LowTide (timestamp curr) None High
        (Some (seaLevel curr)) None None
        [("level", PNum (seaLevel curr)); ("slope_in", PNum prevSlope);
         ("slope_out", PNum nextSlope)]%string]
   else [])
  ++
  (if Num.gtb (Qabs prevSlope) threshold then
     let rising := Num.gtb prevSlope 0 in
     let confidence := if Num.gtb (Qabs prevSlope) (threshold * 2) then High else Medium in
     [mkEvent (IdIndexed (if rising then "rising-tide" else "falling-tide") (Z.of_nat i))
        (if rising then RisingTide else FallingTide)
        (timestamp prev) (Some (timestamp curr)) confidence None None None
        [("slope", PNum prevSlope)]%string]
   else []).

Definition detectTidalPhases (input tidal : list DataPoint) : list DetectedEvent :=
  flat_map (tidalPhasesAt tidal) (seq 1 (length tidal - 2)).

Definition surgeThreshold : Q := 15 # 100.
Definition sustainedDuration : nat := 60.

Record SurgeState := mkSurge {
  surgeStart : option nat;
  maxSurge : Q;
  maxSurgeTime : option Z;
  surgeEvents : list DetectedEvent
}.

(** The body of the loop of [detectStormSurges] at index [i]. *)
Definition surge_step (residuals : list DataPoint) (st : SurgeState) (i : nat) : SurgeState :=
  let level := Qabs (seaLevel (at_ residuals i)) in
  if Num.gtb level surgeThreshold then
    match surgeStart st with
    | None => mkSurge (Some i) level (Some (timestamp (at_ residuals i))) (surgeEvents st)
    | Some _ =>
      if Num.gtb level (maxSurge st)
      then mkSurge (surgeStart st) level (Some (timestamp (at_ residuals i))) (surgeEvents st)
      else st
    end
  else
    match surgeStart st with
    | Some start =>
      let duration := (i - start)%nat in
      let events' :=
        if (sustainedDuration <=? duration)%nat then
          let confidence :=
            if Num.gtb (maxSurge st) (surgeThreshold * 2) then High else Medium in
          surgeEvents st ++
          [mkEvent (IdIndexed "storm-surge" (Z.of_nat start)) StormSurge
             (timestamp (at_ residuals start))
             (Some (timestamp (at_ residuals (i - 1))))
             confidence (Some (maxSurge st)) None (maxSurgeTime st)
             [("peak_amplitude", PNum (maxSurge st));
              ("duration_minutes", PNum (Num.ofNat duration));
              ("surge_type",
               PText (if Num.gtb (seaLevel (at_ residuals start)) 0
                      then "positive" else "negative"))]%string]
        else surgeEvents st in
      mkSurge None 0 None events'
    | None => st
    end.

Definition detectStormSurges (residuals : list DataPoint) : list DetectedEvent :=
  surgeEvents
    (fold_left (surge_step residuals) (seq 0 (length residuals)) (mkSurge None 0 None [])).

Definition seicheFreqMin : Q := 1 / 30.
Definition seicheFreqMax : Q := 1 / 5.

Definition detectSeiches (residuals : list DataPoint) : list DetectedEvent :=
  let spectral := computeSpectralAnalysis residuals in
  concat (mapi (fun freq i =>
    if Num.geb freq seicheFreqMin && Num.leb freq seicheFreqMax then
      let power := nth i (powers spectral) 0%Q in
      let threshold := (calculateSpectralThreshold (powers spectral) * 2)%Q in
      if Num.gtb power threshold then
        let period := (1 / freq)%Q in
        let confidence := if Num.gtb power (threshold * (15 # 10)) then High else Medium in
        let energyPeaks := findEnergyBursts residuals freq period in
        mapi (fun peak index =>
          mkEvent (IdSeiche freq index) Seiche (fst peak) (Some (snd peak)) confidence
            None (Some period) None
            [("frequency", PNum freq); ("spectral_power", PNum power);
             ("estimated_period", PNum period)]%string) energyPeaks
      else []
    else []) (frequencies spectral)).

Record IgState := mkIg {
  totalIgEnergy : Q;
  dominantFreq : Q;
  maxPower : Q
}.

Definition igFreqMax : Q := 1 # 2.

Definition detectInfragravityWaves (residuals : list DataPoint) : list DetectedEvent :=
  let spectral := computeSpectralAnalysis residuals in
  let st :=
    fold_left (fun st i =>
      let freq := nth i (frequencies spectral) 0%Q in
      if Num.leb freq igFreqMax && Num.gtb freq 0 then
        let power := nth i (powers spectral) 0%Q in
        let total := (totalIgEnergy st + power)%Q in
        if Num.gtb power (maxPower st) then mkIg total freq power
        else mkIg total (dominantFreq st) (maxPower st)
      else st)
      (seq 0 (length (frequencies spectral))) (mkIg 0 0 0) in
  let threshold := calculateSpectralThreshold (powers spectral) in
  if Num.gtb (totalIgEnergy st) threshold then
    let dominantPeriod := (1 / dominantFreq st)%Q in
    let confidence := if Num.gtb (totalIgEnergy st) (threshold * 2) then High else Medium in
    [mkEvent (IdPlain "infragravity-waves") Infragravity
       (timestamp (at_ residuals 0))
       (Some (timestamp (at_ residuals (length residuals - 1))))
       confidence None (Some dominantPeriod) None
       [("total_energy", PNum (totalIgEnergy st));
        ("dominant_frequency", PNum (dominantFreq st));
        ("band_max_freq", PNum igFreqMax)]%string]
  else [].

Definition spikeThreshold : Q := 1 # 2.
Definition flatlineThreshold : Q := 1 # 1000.
Definition minFlatlineDuration : nat := 30.

Record FlatState := mkFlat {
  flatlineStart : option nat;
  flatlineValue : option Q;
  flatEvents : list DetectedEvent
}.

Definition flatline_step (input : list DataPoint) (st : FlatState) (i : nat) : FlatState :=
  let change := Qabs (seaLevel (at_ input i) - seaLevel (at_ input (i - 1))) in
  if Num.leb change flatlineThreshold then
    match flatlineStart st with
    | None => mkFlat (Some (i - 1)%nat) (Some (seaLevel (at_ input (i - 1)))) (flatEvents st)
    | Some _ => st
    end
  else
    match flatlineStart st with
    | Some start =>
      let duration := (i - start)%nat in
      let value := match flatlineValue st with Some v => v | None => 0%Q end in
      let events' :=
        if (minFlatlineDuration <=? duration)%nat then
          flatEvents st ++
          [mkEvent (IdIndexed "flatline" (Z.of_nat start)) Flatline
             (timestamp (at_ input start)) (Some (timestamp (at_ input (i - 1))))
             High None None None
             [("constant_value", PNum value);
              ("duration_minutes", PNum (Num.ofNat duration))]%string]
        else flatEvents st in
      mkFlat None None events'
    | None => st
    end.

Definition detectDataArtifacts (input : list DataPoint) : list DetectedEvent :=
  let spikes :=
    flat_map (fun i =>
      let change := Qabs (seaLevel (at_ input i) - seaLevel (at_ input (i - 1))) in
      if Num.gtb change spikeThreshold then
        [mkEvent (IdIndexed "spike" (Z.of_nat i)) Spike (timestamp (at_ input i)) None High
           (Some change) None None
           [("magnitude", PNum change);
            ("previous_level", PNum (seaLevel (at_ input (i - 1))));
            ("current_level", PNum (seaLevel (at_ input i)))]%string]
      else []) (seq 1 (length input - 1)) in
  flatEvents
    (fold_left (flatline_step input) (seq 1 (length input - 1)) (mkFlat None None spikes)).

(** [levels[Math.floor(levels.length * q)]] on the sorted levels. *)
Definition percentileOf (sorted : list Q) (q : Q) : Q :=
  nth (Z.to_nat (Qfloor (Num.ofNat (length sorted) * q))) sorted 0%Q.

(** The body of [data.forEach] in [detectExtremeLevels]. *)
Definition extremeAt (mean p1 p99 threshold : Q) (point : DataPoint) : list DetectedEvent :=
  let deviation := Qabs (seaLevel point - mean) in
  let isExtreme :=
    Num.leb (seaLevel point) p1 || Num.geb (seaLevel point) p99
    || Num.gtb deviation threshold in
  if isExtreme then
    let confidence := if Num.gtb deviation (threshold * (15 # 10)) then High else Medium in
    [mkEvent (IdIndexed "extreme" (timestamp point)) ExtremeLevel (timestamp point) None
       confidence (Some deviation) None None
       [("level", PNum (seaLevel point));
        ("deviation_from_mean", PNum (seaLevel point - mean));
        ("percentile",
         PText (if Num.leb (seaLevel point) p1 then "1st"
                else if Num.geb (seaLevel point) p99 then "99th" else "threshold"))]%string]
  else [].

Definition detectExtremeLevels (cfg : AnalysisConfig) (input : list DataPoint)
    : list DetectedEvent :=
  let levels := map seaLevel input in
  let mean := (Num.sum levels / Num.ofNat (length levels))%Q in
  let sorted := sortBy Num.leb levels in
  let p1 := percentileOf sorted (1 # 100) in
  let p99 := percentileOf sorted (99 # 100) in
  flat_map (extremeAt mean p1 p99 (extremeThreshold cfg)) input.

Definition nyquistFreq : Q := 1 # 2.

Definition detectAliasedActivity (residuals : list DataPoint) : list DetectedEvent :=
  let variance := calculateMovingVariance residuals 10 in
  let spectral := computeSpectralAnalysis residuals in
  match findIndex (fun f => Num.geb f (nyquistFreq * (9 # 10))) (frequencies spectral) with
  | Some nyquistIndex =>
    let nyquistPower := nth nyquistIndex (powers spectral) 0%Q in
    let meanPower :=
      (Num.sum (powers spectral) / Num.ofNat (length (powers spectral)))%Q in
    if Num.gtb nyquistPower (meanPower * 3) then
      let highVariancePeriods :=
        map (fun item : Q * nat =>
               (timestamp (at_ residuals (snd item)),
                timestamp (at_ residuals (Nat.min (snd item + 10) (length residuals - 1))),
                fst item))
          (filter (fun item : Q * nat =>
                     Num.gtb (fst item) (calculateVarianceThreshold variance))
             (mapi (fun v i => (v, i)) variance)) in
      mapi (fun (period : Z * Z * Q) index =>
        mkEvent (IdIndexed "aliased" (Z.of_nat index)) AliasedActivity
          (fst (fst period)) (Some (snd (fst period))) Low None None None
          [("variance", PNum (snd period)); ("nyquist_power", PNum nyquistPower);
           ("mean_power", PNum meanPower);
           ("power_ratio", PNum (nyquistPower / meanPower))]%string)
        highVariancePeriods
    else []
  | None => []
  end.

(** ** The pipeline *)

Definition confidenceLevels (c : Confidence) : nat :=
  match c with Low => 0 | Medium => 1 | High => 2 end.

(** [events.filter(...)] at the end of [runFullAnalysis]. *)
Definition filterByConfidence (threshold : Confidence) (events : list DetectedEvent)
    : list DetectedEvent :=
  filter (fun event => (confidenceLevels threshold <=? confidenceLevels (confidence event))%nat)
    events.

Definition decompose (this : PoseidonAnalysisEngine) : ProcessedData :=
  let filteredData := filterDataByTimeRange this in
  let smoothedData := smoothData filteredData in
  let gapFilledData := fillGaps smoothedData in
  let tidalComponent := extractTidalComponent (config this) gapFilledData in
  let detrended := detrendData gapFilledData tidalComponent in
  let residuals := calculateResiduals gapFilledData tidalComponent in
  mkProcessed gapFilledData detrended residuals tidalComponent.

(** The events pushed by the seven detectors, in the order of the source. *)
Definition detectAll (this : PoseidonAnalysisEngine) (pd : ProcessedData)
    : list DetectedEvent :=
  detectTidalPhases (original pd) (tidal pd)
  ++ detectStormSurges (residuals pd)
  ++ detectSeiches (residuals pd)
  ++ detectInfragravityWaves (residuals pd)
  ++ detectDataArtifacts (original pd)
  ++ detectExtremeLevels (config this) (original pd)
  ++ detectAliasedActivity (residuals pd).

Definition runFullAnalysis (this : PoseidonAnalysisEngine)
    : ProcessedData * list DetectedEvent :=
  let processedData := decompose this in
  let events := detectAll this processedData in
  let filteredEvents := filterByConfidence (confidenceThreshold (config this)) events in
  (processedData, filteredEvents).

End WithMath.

(** ** A reference [Math]

    To run the engine on a concrete series the parameter [MathLib] needs a
    value.  [refMath] is a rational implementation: [refPI] is the binary64
    value of [Math.PI]; cosine and sine reduce their argument to a whole
    number of quarter turns plus a remainder and evaluate the remainder by a
    fixed-point Taylor sum, so they are exact at every multiple of a quarter
    turn and within 1e-8 of the true value elsewhere; [refSqrt] is the
    square root rounded down to 12 decimals. *)

Definition refPI : Q := 884279719003555 # 281474976710656.

Definition fpScale : Z := 2 ^ 32.

Fixpoint taylorFp (terms : nat) (k : Z) (term acc x2 : Z) : Z :=
  match terms with
  | O => acc
  | S t =>
    let term' := (- (term * x2 / fpScale) / ((k + 1) * (k + 2)))%Z in
    taylorFp t (k + 2)%Z term' (acc + term')%Z x2
  end.

Definition ofFp (z : Z) : Q := Qred (z # Z.to_pos fpScale).

Definition refCosSin (x : Q) : Q * Q :=
  let t := (x / (refPI / 2))%Q in
  let k := Qfloor t in
  let r := Qfloor ((t - inject_Z k) * (refPI / 2) * inject_Z fpScale) in
  let x2 := (r * r / fpScale)%Z in
  let c := ofFp (taylorFp 8 0 fpScale fpScale x2) in
  let s := ofFp (taylorFp 8 1 r r x2) in
  match (k mod 4)%Z with
  | 0%Z => (c, s)
  | 1%Z => (Qopp s, c)
  | 2%Z => (Qopp c, Qopp s)
  | _ => (s, Qopp c)
  end.

Definition refSqrt (x : Q) : Q :=
  if Qle_bool x 0 then 0%Q else (Z.sqrt (Qfloor (x * inject_Z (10 ^ 24))) # 10 ^ 12).

Definition refMath : MathLib :=
  mkMath (fun x => fst (refCosSin x)) (fun x => snd (refCosSin x)) refSqrt refPI.

(** The index of the element of [l] nearest to [target] (the first one, when
    several are as near): "the bin nearest the Nyquist frequency" of
    section 4.13 of the specification. *)
Definition nearestTo (target : Q) (l : list Q) : option nat :=
  match l with
  | [] => None
  | x :: _ =>
    Some (fst (fold_left (fun best i =>
                 if Num.ltb (Qabs (nth i l 0%Q - target)) (snd best)
                 then (i, Qabs (nth i l 0%Q - target)) else best)
               (seq 0 (length l)) (0%nat, Qabs (x - target))))
  end.

(** * Properties *)

(** ** Comparisons on numbers *)

Lemma gtb_true (x y : Q) : Num.gtb x y = true <-> (y < x)%Q.
Proof.
  unfold Num.gtb. rewrite negb_true_iff, <- not_true_iff_false, Qle_bool_iff.
  split; [apply Qnot_le_lt | apply Qlt_not_le].
Qed.

Lemma gtb_false (x y : Q) : Num.gtb x y = false <-> (x <= y)%Q.
Proof. unfold Num.gtb. rewrite negb_false_iff. apply Qle_bool_iff. Qed.

Lemma ltb_true (x y : Q) : Num.ltb x y = true <-> (x < y)%Q.
Proof. apply (gtb_true y x). Qed.

Lemma ltb_false (x y : Q) : Num.ltb x y = false <-> (y <= x)%Q.
Proof. apply (gtb_false y x). Qed.

Lemma leb_true (x y : Q) : Num.leb x y = true <-> (x <= y)%Q.
Proof. apply Qle_bool_iff. Qed.

Lemma geb_true (x y : Q) : Num.geb x y = true <-> (y <= x)%Q.
Proof. apply Qle_bool_iff. Qed.

Lemma leb_false (x y : Q) : Num.leb x y = false <-> (y < x)%Q.
Proof.
  unfold Num.leb. rewrite <- not_true_iff_false, Qle_bool_iff.
  split; [apply Qnot_le_lt | apply Qlt_not_le].
Qed.

(** ** Arrays *)

Lemma mapi_from_length {A B : Type} (f : A -> nat -> B) (l : list A) :
  forall i, length (mapi_from f i l) = length l.
Proof. induction l as [|x l IH]; intros i; simpl; [reflexivity | now rewrite IH]. Qed.

Lemma mapi_length {A B : Type} (f : A -> nat -> B) (l : list A) :
  length (mapi f l) = length l.
Proof. apply mapi_from_length. Qed.

Lemma mapi_from_nth_error {A B : Type} (f : A -> nat -> B) (l : list A) :
  forall i k, nth_error (mapi_from f i l) k = option_map (fun x => f x (i + k)%nat) (nth_error l k).
Proof.
  induction l as [|x l IH]; intros i [|k]; simpl; try reflexivity.
  - now rewrite Nat.add_0_r.
  - rewrite IH. now rewrite Nat.add_succ_r.
Qed.

(** The order of one array inside another: [Subseq s l] when [s] is [l]
    with some elements dropped. *)
Inductive Subseq {A : Type} : list A -> list A -> Prop :=
| Subseq_nil : Subseq [] []
| Subseq_keep x s l : Subseq s l -> Subseq (x :: s) (x :: l)
| Subseq_drop x s l : Subseq s l -> Subseq s (x :: l).

Lemma filter_Subseq {A : Type} (p : A -> bool) (l : list A) : Subseq (filter p l) l.
Proof.
  induction l as [|x l IH]; simpl; [constructor|].
  destruct (p x); now constructor.
Qed.

(** ** The confidence filter *)

Section ConfidenceFilter.
Variable M : MathLib.

Lemma filterByConfidence_In (T : Confidence) (events : list DetectedEvent) (e : DetectedEvent) :
  In e (filterByConfidence T events)
  <-> In e events /\ (confidenceLevels T <= confidenceLevels (confidence e))%nat.
Proof.
  unfold filterByConfidence. rewrite filter_In, Nat.leb_le. reflexivity.
Qed.

Lemma filterByConfidence_twice (T T' : Confidence) (events : list DetectedEvent) :
  (confidenceLevels T <= confidenceLevels T')%nat ->
  filterByConfidence T' (filterByConfidence T events) = filterByConfidence T' events.
Proof.
  intros HT. unfold filterByConfidence.
  induction events as [|e events IH]; simpl; [reflexivity|].
  destruct (confidenceLevels T <=? confidenceLevels (confidence e))%nat eqn:E1; simpl.
  - now rewrite IH.
  - rewrite IH. apply Nat.leb_gt in E1.
    destruct (confidenceLevels T' <=? confidenceLevels (confidence e))%nat eqn:E2;
      [apply Nat.leb_le in E2; lia | reflexivity].
Qed.

(** What the detectors push does not depend on the configured threshold. *)
Definition withThreshold (T : Confidence) (cfg : AnalysisConfig) : AnalysisConfig :=
  mkConfig (tideRemovalMethod cfg) (extremeThreshold cfg) T (cfg_startTime cfg) (cfg_endTime cfg).

Lemma detectAll_withThreshold (T : Confidence) (input : list DataPoint) (cfg : AnalysisConfig) :
  let this := mkEngine input cfg in
  let this' := mkEngine input (withThreshold T cfg) in
  decompose M this' = decompose M this
  /\ detectAll M this' (decompose M this') = detectAll M this (decompose M this).
Proof. split; reflexivity. Qed.

End ConfidenceFilter.

(** C8. The events returned by [runFullAnalysis] are the detected events whose
    confidence ordinal (Low = 0, Medium = 1, High = 2) is at least the ordinal
    of the configured threshold, in their order of detection: at Low every
    event is kept, at Medium exactly the Medium and High events, at High
    exactly the High events.  Raising the threshold can only remove events:
    the events kept at a threshold include those kept at any higher one, for
    a list of events and for two runs of the engine that differ in the
    threshold only. *)
Theorem confidence_filter_monotone (M : MathLib) :
  (confidenceLevels Low = 0%nat /\ confidenceLevels Medium = 1%nat
   /\ confidenceLevels High = 2%nat)
  /\ (forall events,
        filterByConfidence Low events = events
        /\ filterByConfidence Medium events
           = filter (fun e => match confidence e with Low => false | _ => true end) events
        /\ filterByConfidence High events
           = filter (fun e => match confidence e with High => true | _ => false end) events
        /\ Subseq (filterByConfidence Medium events) (filterByConfidence Low events)
        /\ Subseq (filterByConfidence High events) (filterByConfidence Medium events))
  /\ (forall this : PoseidonAnalysisEngine,
      snd (runFullAnalysis M this)
      = filterByConfidence (confidenceThreshold (config this))
          (detectAll M this (decompose M this)))
  /\ (forall T events e,
        In e (filterByConfidence T events)
        <-> In e events /\ (confidenceLevels T <= confidenceLevels (confidence e))%nat)
  /\ (forall T events, Subseq (filterByConfidence T events) events)
  /\ (forall T T' events,
        (confidenceLevels T <= confidenceLevels T')%nat ->
        incl (filterByConfidence T' events) (filterByConfidence T events)
        /\ Subseq (filterByConfidence T' events) (filterByConfidence T events))
  /\ (forall T T' input cfg,
        (confidenceLevels T <= confidenceLevels T')%nat ->
        incl (snd (runFullAnalysis M (mkEngine input (withThreshold T' cfg))))
             (snd (runFullAnalysis M (mkEngine input (withThreshold T cfg))))).
Proof.
  split; [repeat split|].
  split.
  { intros events.
    assert (HL : filterByConfidence Low events = events).
    { unfold filterByConfidence. induction events as [|e events IH]; [reflexivity|].
      cbn [filter]. change (confidenceLevels Low <=? confidenceLevels (confidence e))%nat
        with true. now rewrite IH. }
    split; [exact HL|].
    split; [apply filter_ext; intros e; now destruct (confidence e)|].
    split; [apply filter_ext; intros e; now destruct (confidence e)|].
    split.
    - rewrite HL. apply filter_Subseq.
    - rewrite <- (@filterByConfidence_twice Medium High events); [apply filter_Subseq|].
      cbn [confidenceLevels]. lia. }
  split; [reflexivity|].
  split; [apply filterByConfidence_In|].
  split; [intros; apply filter_Subseq|].
  assert (Hincl : forall T T' events,
             (confidenceLevels T <= confidenceLevels T')%nat ->
             incl (filterByConfidence T' events) (filterByConfidence T events)).
  { intros T T' events HT e He.
    apply filterByConfidence_In in He. apply filterByConfidence_In.
    destruct He; split; [assumption | lia]. }
  split.
  - intros T T' events HT. split; [now apply Hincl|].
    rewrite <- (@filterByConfidence_twice T T' events HT). apply filter_Subseq.
  - intros T T' input cfg HT. unfold runFullAnalysis; simpl snd.
    now apply Hincl.
Qed.

(** ** Lengths along the pipeline *)

Section Lengths.
Variable M : MathLib.

Lemma harmonicTidalFit_length (input : list DataPoint) :
  length (harmonicTidalFit M input) = length input.
Proof. apply mapi_length. Qed.

Lemma lowpassTidalFilter_length (input : list DataPoint) :
  length (lowpassTidalFilter input) = length input.
Proof. apply mapi_length. Qed.

Lemma extractTidalComponent_length (cfg : AnalysisConfig) (input : list DataPoint) :
  length (extractTidalComponent M cfg input) = length input.
Proof.
  unfold extractTidalComponent.
  destruct (tideRemovalMethod cfg);
    [apply harmonicTidalFit_length | apply lowpassTidalFilter_length].
Qed.

Lemma detrendData_length (orig tid : list DataPoint) :
  length (detrendData orig tid) = length orig.
Proof. apply mapi_length. Qed.

End Lengths.

(** C2. The four series of the decomposition returned by [runFullAnalysis]
    (original, detrended, residuals, tidal) have the same length, for every
    engine; and each stage after gap filling returns a series as long as the
    one it is given: the harmonic fit, the low-pass filter, the detrending
    and the residual calculation (whatever the tidal series they are given). *)
Theorem decomposition_lengths (M : MathLib) :
  (forall this : PoseidonAnalysisEngine,
      let pd := fst (runFullAnalysis M this) in
      length (detrended pd) = length (original pd)
      /\ length (residuals pd) = length (original pd)
      /\ length (tidal pd) = length (original pd)
      /\ original pd = fillGaps (smoothData (filterDataByTimeRange this)))
  /\ (forall input, length (harmonicTidalFit M input) = length input)
  /\ (forall input, length (lowpassTidalFilter input) = length input)
  /\ (forall cfg input, length (extractTidalComponent M cfg input) = length input)
  /\ (forall orig tid, length (detrendData orig tid) = length orig)
  /\ (forall orig tid, length (calculateResiduals orig tid) = length orig).
Proof.
  repeat split.
  - apply detrendData_length.
  - apply detrendData_length.
  - apply extractTidalComponent_length.
  - apply harmonicTidalFit_length.
  - apply lowpassTidalFilter_length.
  - apply extractTidalComponent_length.
  - apply detrendData_length.
  - intros; apply detrendData_length.
Qed.

(** ** The tidal-phase detector *)

(** The events expected at a peak of the tidal series: the "High Tide" event
    at the midpoint sample [i], and the "Rising Tide" event of the pair
    [(i - 1, i)]. *)
Definition highTideEvent (tidal : list DataPoint) (i : nat) : DetectedEvent :=
  let curr := at_ tidal i in
  mkEvent (IdIndexed "high-tide" (Z.of_nat i)) HighTide (timestamp curr) None High
    (Some (seaLevel curr)) None None
    [("level", PNum (seaLevel curr));
     ("slope_in", PNum (seaLevel curr - seaLevel (at_ tidal (i - 1))));
     ("slope_out", PNum (seaLevel (at_ tidal (i + 1)) - seaLevel curr))]%string.

Definition risingTideEvent (tidal : list DataPoint) (i : nat) : DetectedEvent :=
  let prev := at_ tidal (i - 1) in
  let curr := at_ tidal i in
  let prevSlope := (seaLevel curr - seaLevel prev)%Q in
  mkEvent (IdIndexed "rising-tide" (Z.of_nat i)) RisingTide
    (timestamp prev) (Some (timestamp curr))
    (if Num.gtb (Qabs prevSlope) (tideThreshold * 2) then High else Medium)
    None None None [("slope", PNum prevSlope)]%string.

Lemma tidalPhasesAt_incl (input tidal : list DataPoint) (i : nat) :
  (1 <= i)%nat -> (i + 1 < length tidal)%nat ->
  incl (tidalPhasesAt tidal i) (detectTidalPhases input tidal).
Proof.
  intros H1 H2 e He. unfold detectTidalPhases.
  apply in_flat_map. exists i. split; [|assumption].
  apply in_seq. lia.
Qed.

(** C6. At every interior index [i] of the tidal series whose incoming slope
    exceeds 0.02 and whose outgoing slope is below -0.02, the tidal-phase
    detector emits the High-confidence "High Tide" event at sample [i] and
    also the "Rising Tide" event of the pair [(i - 1, i)]: the two checks are
    not exclusive. *)
Theorem high_tide_with_rising_tide (input tidal : list DataPoint) (i : nat) :
  (1 <= i)%nat -> (i + 1 < length tidal)%nat ->
  (2 # 100 < seaLevel (at_ tidal i) - seaLevel (at_ tidal (i - 1)))%Q ->
  (seaLevel (at_ tidal (i + 1)) - seaLevel (at_ tidal i) < - (2 # 100))%Q ->
  In (highTideEvent tidal i) (detectTidalPhases input tidal)
  /\ confidence (highTideEvent tidal i) = High
  /\ startTime (highTideEvent tidal i) = timestamp (at_ tidal i)
  /\ In (risingTideEvent tidal i) (detectTidalPhases input tidal)
  /\ type (risingTideEvent tidal i) = RisingTide.
Proof.
  intros H1 H2 Hin Hout.
  assert (Hpeak : Num.gtb (seaLevel (at_ tidal i) - seaLevel (at_ tidal (i - 1))) tideThreshold
                  && Num.ltb (seaLevel (at_ tidal (i + 1)) - seaLevel (at_ tidal i))
                       (- tideThreshold) = true).
  { apply andb_true_iff. split; [apply gtb_true | apply ltb_true]; assumption. }
  assert (Habs : Num.gtb (Qabs (seaLevel (at_ tidal i) - seaLevel (at_ tidal (i - 1))))
                   tideThreshold = true).
  { apply gtb_true. eapply Qlt_le_trans; [exact Hin | apply Qle_Qabs]. }
  assert (Hpos : Num.gtb (seaLevel (at_ tidal i) - seaLevel (at_ tidal (i - 1))) 0 = true).
  { apply gtb_true. eapply Qlt_trans; [|exact Hin]. reflexivity. }
  repeat split.
  - apply (tidalPhasesAt_incl input tidal H1 H2).
    unfold tidalPhasesAt. rewrite Hpeak. left. reflexivity.
  - apply (tidalPhasesAt_incl input tidal H1 H2).
    unfold tidalPhasesAt. apply in_or_app. right. apply in_or_app. right.
    rewrite Habs. cbv zeta. rewrite Hpos. left. reflexivity.
Qed.

Definition peakSeries : list DataPoint :=
  [mkPoint 0 0 0; mkPoint 60000 (5 # 100) 1; mkPoint 120000 0 2].

Lemma high_tide_with_rising_tide_witness :
  In (highTideEvent peakSeries 1) (detectTidalPhases peakSeries peakSeries)
  /\ confidence (highTideEvent peakSeries 1) = High
  /\ startTime (highTideEvent peakSeries 1) = 60000%Z
  /\ In (risingTideEvent peakSeries 1) (detectTidalPhases peakSeries peakSeries)
  /\ type (risingTideEvent peakSeries 1) = RisingTide.
Proof.
  apply (@high_tide_with_rising_tide peakSeries peakSeries 1%nat);
    [simpl; lia | simpl; lia | reflexivity | reflexivity].
Defined.

(** ** Sorting *)

Section SortFacts.
Context {A : Type} (leb : A -> A -> bool).

Lemma insert_perm (x : A) (l : list A) : Permutation (insert leb x l) (x :: l).
Proof.
  induction l as [|y l IH]; simpl; [reflexivity|].
  destruct (leb x y); [reflexivity|].
  rewrite IH. apply perm_swap.
Qed.

Lemma sortBy_perm (l : list A) : Permutation (sortBy leb l) l.
Proof.
  induction l as [|x l IH]; simpl; [reflexivity|].
  rewrite insert_perm. now constructor.
Qed.

Lemma sortBy_length (l : list A) : length (sortBy leb l) = length l.
Proof. apply Permutation_length, sortBy_perm. Qed.

Lemma sortBy_In (l : list A) (x : A) : In x (sortBy leb l) <-> In x l.
Proof.
  split; apply Permutation_in; [|symmetry]; apply sortBy_perm.
Qed.

End SortFacts.

(** ** The extreme-level detector *)

Lemma percentile_index_lt (n : nat) (q : Q) :
  (0 < n)%nat -> (q < 1)%Q -> (0 <= q)%Q ->
  (Z.to_nat (Qfloor (Num.ofNat n * q)) < n)%nat.
Proof.
  intros Hn Hq1 Hq0.
  assert (Hlt : (Qfloor (Num.ofNat n * q) < Z.of_nat n)%Z).
  { rewrite Zlt_Qlt. eapply Qle_lt_trans; [apply Qfloor_le|].
    unfold Num.ofNat.
    assert (inject_Z 0 < inject_Z (Z.of_nat n))%Q by (rewrite <- Zlt_Qlt; lia).
  change (inject_Z 0) with 0%Q in *.
    nra. }
  lia.
Qed.

Lemma percentileOf_In (l : list Q) (q : Q) :
  l <> [] -> (q < 1)%Q -> (0 <= q)%Q ->
  In (percentileOf (sortBy Num.leb l) q) l.
Proof.
  intros Hl Hq1 Hq0. unfold percentileOf.
  apply (sortBy_In Num.leb). apply nth_In.
  apply percentile_index_lt; try assumption.
  rewrite sortBy_length. destruct l; [congruence | simpl; lia].
Qed.

Lemma extremeAt_flagged (mean p1 p99 threshold : Q) (point : DataPoint) :
  (seaLevel point <= p1)%Q \/ (p99 <= seaLevel point)%Q ->
  exists e, extremeAt mean p1 p99 threshold point = [e]
            /\ type e = ExtremeLevel
            /\ startTime e = timestamp point
            /\ id e = IdIndexed "extreme" (timestamp point).
Proof.
  intros H. unfold extremeAt.
  assert (Hb : Num.leb (seaLevel point) p1 || Num.geb (seaLevel point) p99
               || Num.gtb (Qabs (seaLevel point - mean)) threshold = true).
  { destruct H as [H|H].
    - apply leb_true in H. now rewrite H.
    - apply geb_true in H. rewrite H. now rewrite orb_true_r. }
  rewrite Hb. eexists. repeat split.
Qed.

Lemma exists_max_level (input : list DataPoint) :
  input <> [] ->
  exists point, In point input /\ forall q, In q input -> (seaLevel q <= seaLevel point)%Q.
Proof.
  induction input as [|p l IH]; [congruence|]. intros _.
  destruct l as [|p' l'].
  - exists p. split; [now left|]. intros q [<-|[]]. apply Qle_refl.
  - destruct IH as [m [Hm Hmax]]; [congruence|].
    destruct (Qlt_le_dec (seaLevel m) (seaLevel p)) as [Hlt|Hle].
    + exists p. split; [now left|]. intros q [<-|Hq]; [apply Qle_refl|].
      apply Qle_trans with (seaLevel m); [now apply Hmax | now apply Qlt_le_weak].
    + exists m. split; [now right|]. intros q [<-|Hq]; [assumption | now apply Hmax].
Qed.

(** C10. On a non-empty series the extreme-level detector flags every sample
    that attains the maximum level and every sample that attains the minimum
    level, whatever [config.extremeThreshold] is: the 99th-percentile cutoff
    is a level of the series, so at most the maximum, and the 1st-percentile
    cutoff is at least the minimum.  Hence it emits at least one
    "Extreme Level" event. *)
Theorem extreme_levels_flag_max_and_min (cfg : AnalysisConfig) (input : list DataPoint) :
  input <> [] ->
  (forall point,
      In point input ->
      (forall q, In q input -> (seaLevel q <= seaLevel point)%Q)
      \/ (forall q, In q input -> (seaLevel point <= seaLevel q)%Q) ->
      exists e, In e (detectExtremeLevels cfg input)
                /\ type e = ExtremeLevel
                /\ startTime e = timestamp point
                /\ id e = IdIndexed "extreme" (timestamp point))
  /\ (exists e, In e (detectExtremeLevels cfg input) /\ type e = ExtremeLevel)
  /\ (let sorted := sortBy Num.leb (map seaLevel input) in
      In (percentileOf sorted (1 # 100)) (map seaLevel input)
      /\ In (percentileOf sorted (99 # 100)) (map seaLevel input)).
Proof.
  intros Hne.
  assert (Hlv : map seaLevel input <> []) by (destruct input; [congruence | discriminate]).
  assert (H1 : In (percentileOf (sortBy Num.leb (map seaLevel input)) (1 # 100))
                 (map seaLevel input))
    by (apply percentileOf_In; [assumption | reflexivity | discriminate]).
  assert (H99 : In (percentileOf (sortBy Num.leb (map seaLevel input)) (99 # 100))
                  (map seaLevel input))
    by (apply percentileOf_In; [assumption | reflexivity | discriminate]).
  assert (Hflag : forall point,
             In point input ->
             (forall q, In q input -> (seaLevel q <= seaLevel point)%Q)
             \/ (forall q, In q input -> (seaLevel point <= seaLevel q)%Q) ->
             exists e, In e (detectExtremeLevels cfg input)
                       /\ type e = ExtremeLevel
                       /\ startTime e = timestamp point
                       /\ id e = IdIndexed "extreme" (timestamp point)).
  { intros point Hin Hext.
    apply in_map_iff in H1. destruct H1 as [q1 [E1 Hq1]].
    apply in_map_iff in H99. destruct H99 as [q99 [E99 Hq99]].
    destruct (@extremeAt_flagged
                (Num.sum (map seaLevel input) / Num.ofNat (length (map seaLevel input)))
                (percentileOf (sortBy Num.leb (map seaLevel input)) (1 # 100))
                (percentileOf (sortBy Num.leb (map seaLevel input)) (99 # 100))
                (extremeThreshold cfg) point) as [e [He Hprops]].
    { destruct Hext as [Hmax|Hmin].
      - right. rewrite <- E99. now apply Hmax.
      - left. rewrite <- E1. now apply Hmin. }
    exists e. split; [|exact Hprops].
    unfold detectExtremeLevels. apply in_flat_map. exists point.
    split; [assumption|]. rewrite He. now left. }
  split; [exact Hflag|]. split; [|split; assumption].
  destruct (exists_max_level Hne) as [m [Hm Hmax]].
  destruct (Hflag m Hm (or_introl Hmax)) as [e [He [Ht _]]].
  exists e. split; assumption.
Qed.

Definition threeLevels : list DataPoint :=
  [mkPoint 0 1 0; mkPoint 60000 3 1; mkPoint 120000 2 2].

Lemma extreme_levels_flag_max_and_min_witness :
  (exists e, In e (detectExtremeLevels (mkConfig lowpass 1000 Low None None) threeLevels)
             /\ type e = ExtremeLevel
             /\ startTime e = 60000%Z
             /\ id e = IdIndexed "extreme" 60000%Z)
  /\ (exists e, In e (detectExtremeLevels (mkConfig lowpass 1000 Low None None) threeLevels)
                /\ type e = ExtremeLevel).
Proof.
  assert (Hne : threeLevels <> []) by discriminate.
  destruct (@extreme_levels_flag_max_and_min (mkConfig lowpass 1000 Low None None)
              threeLevels Hne) as [Hflag [Hsome _]].
  split; [|exact Hsome].
  apply (Hflag (mkPoint 60000 3 1)).
  - simpl. tauto.
  - left. intros q [<-|[<-|[<-|[]]]]; discriminate.
Defined.

(** ** The storm-surge detector *)

Section StormSurge.

Definition surgeInit : SurgeState := mkSurge None 0 None [].

Definition overThreshold (p : DataPoint) : Prop := (surgeThreshold < Qabs (seaLevel p))%Q.

(** A pass of the loop reads the array at [i], at [i - 1] and at the start of
    the open run only. *)
Lemma surge_step_local (r r' : list DataPoint) (st : SurgeState) (i : nat) :
  (forall j, (j <= i)%nat -> at_ r j = at_ r' j) ->
  (forall s, surgeStart st = Some s -> (s <= i)%nat) ->
  surge_step r st i = surge_step r' st i.
Proof.
  intros Hagree Hstart. unfold surge_step.
  rewrite (Hagree i (Nat.le_refl i)).
  destruct (Num.gtb (Qabs (seaLevel (at_ r' i))) surgeThreshold); [reflexivity|].
  destruct (surgeStart st) as [s|] eqn:Es; [|reflexivity].
  rewrite (Hagree s (Hstart s eq_refl)).
  rewrite (Hagree (i - 1)%nat) by lia. reflexivity.
Qed.

Lemma surge_step_start (r : list DataPoint) (st : SurgeState) (i : nat) :
  (forall s, surgeStart st = Some s -> (s <= i)%nat) ->
  forall s, surgeStart (surge_step r st i) = Some s -> (s <= S i)%nat.
Proof.
  intros Hstart s. unfold surge_step.
  destruct (Num.gtb (Qabs (seaLevel (at_ r i))) surgeThreshold).
  - destruct (surgeStart st) as [s0|] eqn:Es.
    + destruct (Num.gtb _ (maxSurge st)); simpl; rewrite ?Es;
        intros [= <-]; specialize (Hstart s0 eq_refl); lia.
    + simpl. intros [= <-]. lia.
  - destruct (surgeStart st) as [s0|] eqn:Es; simpl; [discriminate|].
    rewrite Es. discriminate.
Qed.

Lemma surge_fold_local (r r' : list DataPoint) :
  forall k a st,
    (forall j, (j < a + k)%nat -> at_ r j = at_ r' j) ->
    (forall s, surgeStart st = Some s -> (s <= a)%nat) ->
    fold_left (surge_step r) (seq a k) st = fold_left (surge_step r') (seq a k) st.
Proof.
  induction k as [|k IH]; intros a st Hagree Hstart; simpl; [reflexivity|].
  rewrite (@surge_step_local r r' st a);
    [|intros j Hj; apply Hagree; lia | assumption].
  apply IH.
  - intros j Hj. apply Hagree. lia.
  - now apply surge_step_start.
Qed.

(** Samples at or below the threshold leave a state with no open run as it is. *)
Lemma surge_fold_quiet (r : list DataPoint) :
  forall k a st,
    (forall j, (a <= j < a + k)%nat -> ~ overThreshold (at_ r j)) ->
    surgeStart st = None ->
    fold_left (surge_step r) (seq a k) st = st.
Proof.
  induction k as [|k IH]; intros a st Hq Hnone; simpl; [reflexivity|].
  assert (Hstep : surge_step r st a = st).
  { unfold surge_step.
    destruct (Num.gtb (Qabs (seaLevel (at_ r a))) surgeThreshold) eqn:E.
    - apply gtb_true in E. exfalso. apply (Hq a); [lia | exact E].
    - now rewrite Hnone. }
  rewrite Hstep. apply IH; [|assumption].
  intros j Hj. apply Hq. lia.
Qed.

(** Samples above the threshold push no event. *)
Lemma surge_fold_over_events (r : list DataPoint) :
  forall k a st,
    (forall j, (a <= j < a + k)%nat -> overThreshold (at_ r j)) ->
    surgeEvents (fold_left (surge_step r) (seq a k) st) = surgeEvents st.
Proof.
  induction k as [|k IH]; intros a st Hover; simpl; [reflexivity|].
  rewrite IH by (intros j Hj; apply Hover; lia).
  unfold surge_step.
  assert (E : Num.gtb (Qabs (seaLevel (at_ r a))) surgeThreshold = true)
    by (apply gtb_true, Hover; lia).
  rewrite E.
  destruct (surgeStart st); [destruct (Num.gtb _ (maxSurge st))|]; reflexivity.
Qed.

(** Inside an open run, samples above the threshold that do not exceed the
    recorded peak leave the state as it is. *)
Lemma surge_fold_plateau (r : list DataPoint) :
  forall k a st s,
    surgeStart st = Some s ->
    (forall j, (a <= j < a + k)%nat ->
               overThreshold (at_ r j) /\ (Qabs (seaLevel (at_ r j)) <= maxSurge st)%Q) ->
    fold_left (surge_step r) (seq a k) st = st.
Proof.
  induction k as [|k IH]; intros a st s Hs Hrun; simpl; [reflexivity|].
  assert (Hstep : surge_step r st a = st).
  { unfold surge_step. destruct (Hrun a) as [Hov Hle]; [lia|].
    apply gtb_true in Hov. rewrite Hov, Hs.
    apply gtb_false in Hle. now rewrite Hle. }
  rewrite Hstep. apply (IH (S a) st s Hs).
  intros j Hj. apply Hrun. lia.
Qed.

Lemma at_app_l (l1 l2 : list DataPoint) (j : nat) :
  (j < length l1)%nat -> at_ (l1 ++ l2) j = at_ l1 j.
Proof. intros H. unfold at_. now apply app_nth1. Qed.

Lemma at_app_r (l1 l2 : list DataPoint) (j : nat) :
  (length l1 <= j)%nat -> at_ (l1 ++ l2) j = at_ l2 (j - length l1).
Proof. intros H. unfold at_. now apply app_nth2. Qed.

Lemma Forall_at (P : DataPoint -> Prop) (l : list DataPoint) (j : nat) :
  Forall P l -> (j < length l)%nat -> P (at_ l j).
Proof. intros HF Hj. unfold at_. rewrite Forall_forall in HF. now apply HF, nth_In. Qed.

End StormSurge.

(** C9. Samples above 0.15 m in magnitude at the end of the residual series
    add no event: the detector returns for [prefix ++ run] what it returns
    for [prefix] alone, however long [run] is, so the run that contains the
    final sample is never reported; and a series that stays above the
    threshold throughout yields no event at all. *)
Theorem trailing_surge_not_reported (prefix run : list DataPoint) :
  Forall overThreshold run ->
  detectStormSurges (prefix ++ run) = detectStormSurges prefix
  /\ detectStormSurges run = [].
Proof.
  intros Hrun.
  assert (Hgen : forall pre, detectStormSurges (pre ++ run) = detectStormSurges pre).
  { intros pre. unfold detectStormSurges.
    rewrite length_app, seq_app, fold_left_app. simpl.
    rewrite surge_fold_over_events.
    - f_equal. apply surge_fold_local.
      + intros j Hj. apply at_app_l. lia.
      + simpl. discriminate.
    - intros j Hj. rewrite at_app_r by lia. apply Forall_at; [assumption | lia]. }
  split; [apply Hgen|].
  apply (Hgen []).
Qed.

(** A run of [k] samples one minute apart at level [v], starting at [t0]. *)
Definition constantRun (t0 : Z) (v : Q) (k : nat) : list DataPoint :=
  map (fun i => mkPoint (t0 + Z.of_nat i * 60000) v (-1)) (seq 0 k).

Lemma constantRun_Forall (P : DataPoint -> Prop) (t0 : Z) (v : Q) (k : nat) :
  (forall t i, P (mkPoint t v i)) -> Forall P (constantRun t0 v k).
Proof.
  intros HP. apply Forall_forall. intros p Hp.
  apply in_map_iff in Hp. destruct Hp as [i [<- _]]. apply HP.
Qed.

Lemma trailing_surge_not_reported_witness :
  detectStormSurges (constantRun 0 0 5 ++ constantRun 300000 (2 # 10) 100)
  = detectStormSurges (constantRun 0 0 5)
  /\ detectStormSurges (constantRun 300000 (2 # 10) 100) = [].
Proof.
  apply (@trailing_surge_not_reported (constantRun 0 0 5) (constantRun 300000 (2 # 10) 100)).
  apply constantRun_Forall. intros t i. reflexivity.
Defined.

Lemma fold_left_cons {A B : Type} (f : A -> B -> A) (x : B) (l : list B) (a : A) :
  fold_left f (x :: l) a = fold_left f l (f a x).
Proof. reflexivity. Qed.

Lemma seq_three (a k m : nat) :
  seq 0 (a + (S k + S m))
  = seq 0 a ++ (a :: seq (S a) k) ++ ((a + S k)%nat :: seq (S (a + S k)) m).
Proof.
  rewrite seq_app. f_equal. rewrite Nat.add_0_l.
  rewrite seq_app. simpl. reflexivity.
Qed.

(** The event reported for a run [run] of the residual series that starts
    after the samples [pre], keeps the magnitude of its first sample and is
    not above twice the threshold. *)
Definition plateauSurgeEvent (pre run : list DataPoint) : DetectedEvent :=
  let first := at_ run 0 in
  mkEvent (IdIndexed "storm-surge" (Z.of_nat (length pre))) StormSurge
    (timestamp first) (Some (timestamp (at_ run (length run - 1))))
    Medium (Some (Qabs (seaLevel first))) None (Some (timestamp first))
    [("peak_amplitude", PNum (Qabs (seaLevel first)));
     ("duration_minutes", PNum (Num.ofNat (length run)));
     ("surge_type", PText "positive")]%string.

Definition levelIs (v : Q) (p : DataPoint) : Prop := (seaLevel p == v)%Q.

Lemma levelIs_zero_quiet (p : DataPoint) : levelIs 0 p -> ~ overThreshold p.
Proof.
  unfold levelIs, overThreshold. intros H. rewrite H. discriminate.
Qed.

Lemma levelIs_fifth_over (p : DataPoint) :
  levelIs (2 # 10) p ->
  overThreshold p /\ (Qabs (seaLevel p) == 2 # 10)%Q /\ (0 < seaLevel p)%Q.
Proof.
  unfold levelIs, overThreshold. intros H. rewrite H. repeat split.
Qed.

(** C1, as the code has it.  When the residual is 0.20 m on 90 consecutive
    samples, 0 elsewhere, and at least one sample follows the 90, the
    storm-surge detector emits exactly one event: a "Storm Surge" of Medium
    confidence (0.20 does not exceed twice the 0.15 threshold), spanning the
    run, with [duration_minutes] 90, [peak_amplitude] 0.20 and [peak] the
    timestamp of the first sample of the run (the first to attain the
    maximum magnitude). *)
Theorem plateau_surge_detected (pre run post : list DataPoint) :
  Forall (levelIs 0) pre ->
  Forall (levelIs (2 # 10)) run ->
  length run = 90%nat ->
  Forall (levelIs 0) post ->
  post <> [] ->
  detectStormSurges (pre ++ run ++ post) = [plateauSurgeEvent pre run]
  /\ type (plateauSurgeEvent pre run) = StormSurge
  /\ confidence (plateauSurgeEvent pre run) = Medium
  /\ peak (plateauSurgeEvent pre run) = Some (timestamp (at_ run 0))
  /\ (exists a, In ("peak_amplitude"%string, PNum a) (properties (plateauSurgeEvent pre run))
                /\ (a == 2 # 10)%Q)
  /\ In ("duration_minutes"%string, PNum 90) (properties (plateauSurgeEvent pre run)).
Proof.
  intros Hpre Hrun Hlen Hpost Hne.
  destruct post as [|p0 post']; [congruence|]. clear Hne.
  set (R := pre ++ run ++ p0 :: post').
  assert (Hat_pre : forall j, (j < length pre)%nat -> at_ R j = at_ pre j).
  { intros j Hj. unfold R. now apply at_app_l. }
  assert (Hat_run : forall j, (length pre <= j < length pre + 90)%nat ->
                              at_ R j = at_ run (j - length pre)).
  { intros j Hj. unfold R. rewrite at_app_r by lia. apply at_app_l. lia. }
  assert (Hat_post : forall j, (length pre + 90 <= j)%nat ->
                               at_ R j = at_ (p0 :: post') (j - length pre - 90)).
  { intros j Hj. unfold R. rewrite at_app_r by lia. rewrite at_app_r by lia.
    now rewrite Hlen. }
  assert (Hrun_j : forall j, (length pre <= j < length pre + 90)%nat ->
                             levelIs (2 # 10) (at_ R j)).
  { intros j Hj. rewrite Hat_run by assumption. apply Forall_at; [assumption | lia]. }
  assert (Hfirst : levelIs (2 # 10) (at_ R (length pre))) by (apply Hrun_j; lia).
  destruct (levelIs_fifth_over Hfirst) as [Hov0 [Habs0 Hpos0]].
  (* the three stretches of the scan *)
  assert (Escan : seq 0 (length R)
                  = seq 0 (length pre)
                    ++ (length pre :: seq (S (length pre)) 89)
                    ++ ((length pre + 90)%nat :: seq (S (length pre + 90)) (length post'))).
  { unfold R. rewrite !length_app, Hlen. simpl length.
    apply (seq_three (length pre) 89 (length post')). }
  unfold detectStormSurges. fold R. rewrite Escan, !fold_left_app, !fold_left_cons.
  (* before the run *)
  rewrite (@surge_fold_quiet R (length pre) 0%nat);
    [| intros j Hj; rewrite Hat_pre by lia;
       apply levelIs_zero_quiet, Forall_at; [assumption | lia]
     | reflexivity].
  (* the run *)
  assert (Estart : surge_step R (mkSurge None 0 None []) (length pre)
                   = mkSurge (Some (length pre)) (Qabs (seaLevel (at_ R (length pre))))
                       (Some (timestamp (at_ R (length pre)))) []).
  { unfold surge_step. apply gtb_true in Hov0. now rewrite Hov0. }
  rewrite Estart.
  set (st1 := mkSurge (Some (length pre)) (Qabs (seaLevel (at_ R (length pre))))
                (Some (timestamp (at_ R (length pre)))) []).
  rewrite (@surge_fold_plateau R 89 (S (length pre)) st1 (length pre) eq_refl);
    [| intros j Hj; destruct (@levelIs_fifth_over (at_ R j)) as [Hov [Habs _]];
       [apply Hrun_j; lia
       | split; [exact Hov | unfold st1; simpl maxSurge; rewrite Habs, Habs0; apply Qle_refl]]].
  unfold st1; clear st1.
  (* the first sample after the run closes it *)
  assert (Hp0 : levelIs 0 (at_ R (length pre + 90))).
  { rewrite Hat_post by lia. replace (length pre + 90 - length pre - 90)%nat with 0%nat by lia.
    inversion Hpost; assumption. }
  assert (Eclose : surge_step R
                     (mkSurge (Some (length pre)) (Qabs (seaLevel (at_ R (length pre))))
                        (Some (timestamp (at_ R (length pre)))) [])
                     (length pre + 90)
                   = mkSurge None 0 None [plateauSurgeEvent pre run]).
  { unfold surge_step.
    assert (E1 : Num.gtb (Qabs (seaLevel (at_ R (length pre + 90)))) surgeThreshold = false).
    { apply not_true_iff_false. intros E. apply gtb_true in E.
      exact (levelIs_zero_quiet Hp0 E). }
    rewrite E1. simpl surgeStart. cbv zeta.
    simpl (sustainedDuration <=? 90)%nat. simpl maxSurge. simpl maxSurgeTime. simpl surgeEvents.
    assert (E2 : Num.gtb (Qabs (seaLevel (at_ R (length pre)))) (surgeThreshold * 2) = false).
    { apply gtb_false. rewrite Habs0. discriminate. }
    assert (E3 : Num.gtb (seaLevel (at_ R (length pre))) 0 = true) by now apply gtb_true.
    rewrite E2, E3.
    rewrite (Hat_run (length pre)) by lia.
    rewrite (Hat_run (length pre + 90 - 1)%nat) by lia.
    replace (length pre - length pre)%nat with 0%nat by lia.
    replace (length pre + 90 - 1 - length pre)%nat with (length run - 1)%nat by lia.
    replace (length pre + 90 - length pre)%nat with 90%nat by lia.
    unfold plateauSurgeEvent. rewrite Hlen. reflexivity. }
  rewrite Eclose.
  (* after the run *)
  rewrite surge_fold_quiet;
    [| intros j Hj; rewrite Hat_post by lia;
       apply levelIs_zero_quiet, Forall_at; [assumption | simpl; lia]
     | reflexivity].
  simpl surgeEvents. split; [reflexivity|].
  split; [reflexivity|]. split; [reflexivity|]. split; [reflexivity|].
  split.
  - exists (Qabs (seaLevel (at_ run 0))). split; [now left|].
    rewrite <- Habs0. rewrite (Hat_run (length pre)) by lia.
    now rewrite Nat.sub_diag.
  - simpl. right. left. now rewrite Hlen.
Qed.

(** Ten quiet minutes, ninety minutes at 0.20 m, ten quiet minutes. *)
Definition plateauSeries : list DataPoint :=
  constantRun 0 0 10 ++ constantRun 600000 (2 # 10) 90 ++ constantRun 6000000 0 10.

Lemma plateau_surge_detected_witness :
  detectStormSurges plateauSeries
  = [plateauSurgeEvent (constantRun 0 0 10) (constantRun 600000 (2 # 10) 90)]
  /\ type (plateauSurgeEvent (constantRun 0 0 10) (constantRun 600000 (2 # 10) 90)) = StormSurge
  /\ confidence (plateauSurgeEvent (constantRun 0 0 10) (constantRun 600000 (2 # 10) 90)) = Medium
  /\ peak (plateauSurgeEvent (constantRun 0 0 10) (constantRun 600000 (2 # 10) 90))
     = Some (timestamp (at_ (constantRun 600000 (2 # 10) 90) 0))
  /\ (exists a, In ("peak_amplitude"%string, PNum a)
                  (properties (plateauSurgeEvent (constantRun 0 0 10)
                                 (constantRun 600000 (2 # 10) 90)))
                /\ (a == 2 # 10)%Q)
  /\ In ("duration_minutes"%string, PNum 90)
       (properties (plateauSurgeEvent (constantRun 0 0 10) (constantRun 600000 (2 # 10) 90))).
Proof.
  apply (@plateau_surge_detected (constantRun 0 0 10) (constantRun 600000 (2 # 10) 90)
           (constantRun 6000000 0 10)).
  - apply constantRun_Forall. intros; reflexivity.
  - apply constantRun_Forall. intros; reflexivity.
  - reflexivity.
  - apply constantRun_Forall. intros; reflexivity.
  - discriminate.
Defined.

(** The 0.20 m plateau of 90 minutes inside a quiet series is reported with
    Medium confidence, not High; and when the plateau ends the series nothing
    is reported. *)
Lemma plateau_surge_not_high :
  map (fun e => (type e, confidence e)) (detectStormSurges plateauSeries)
  = [(StormSurge, Medium)]
  /\ ~ (exists e, In e (detectStormSurges plateauSeries) /\ confidence e = High)
  /\ detectStormSurges (constantRun 0 0 10 ++ constantRun 600000 (2 # 10) 90) = [].
Proof.
  assert (E : map (fun e => (type e, confidence e)) (detectStormSurges plateauSeries)
              = [(StormSurge, Medium)]) by (vm_compute; reflexivity).
  split; [exact E|]. split; [|vm_compute; reflexivity].
  intros [e [He Hc]].
  apply (in_map (fun e => (type e, confidence e))) in He. rewrite E in He.
  destruct He as [He|[]]. rewrite Hc in He. discriminate.
Qed.

(** ** The gap filler *)

(** The samples the gap filler is to put between two consecutive samples
    [a] and [b] (section 4.3 of the specification): none when they are at
    most two intervals apart, else [floor(delta / interval) - 1] samples one
    interval apart, marked [-1], whose levels go linearly from the level of
    [a] to the level of [b]. *)
Definition interpolated (a b : DataPoint) : list DataPoint :=
  let delta := (timestamp b - timestamp a)%Z in
  if (delta >? expectedInterval * 2)%Z then
    let steps := (delta / expectedInterval - 1)%Z in
    map (fun j =>
           mkPoint (timestamp a + Z.of_nat j * expectedInterval)
             (seaLevel a + (seaLevel b - seaLevel a) * Num.ofNat j / inject_Z (steps + 1))%Q
             (-1))
      (seq 1 (Z.to_nat steps))
  else [].

(** The gap-filled series, pair by pair. *)
Fixpoint fillGaps_spec (l : list DataPoint) : list DataPoint :=
  match l with
  | [] => []
  | a :: rest =>
    a :: match rest with
         | [] => []
         | b :: _ => interpolated a b ++ fillGaps_spec rest
         end
  end.

Section GapFiller.

Lemma at_middle (P rest : list DataPoint) (a : DataPoint) :
  at_ (P ++ a :: rest) (length P) = a.
Proof. unfold at_. rewrite app_nth2 by lia. now rewrite Nat.sub_diag. Qed.

Lemma at_middle_next (P rest : list DataPoint) (a b : DataPoint) :
  at_ (P ++ a :: b :: rest) (S (length P)) = b.
Proof.
  unfold at_. rewrite app_nth2 by lia.
  replace (S (length P) - length P)%nat with 1%nat by lia. reflexivity.
Qed.

Lemma splice_at_end (front back : list DataPoint) (x : DataPoint) :
  splice (length front) x (front ++ back) = front ++ x :: back.
Proof.
  unfold splice. rewrite firstn_app, skipn_app, Nat.sub_diag, firstn_all, skipn_all.
  simpl. now rewrite app_nil_r.
Qed.

(** The inner loop: after [k] passes the first [k] interpolated samples
    stand between the two samples of the pair. *)
Lemma fillGaps_inner (P rest : list DataPoint) (a b : DataPoint) (steps : Z) :
  forall k,
    fold_left (fillGaps_insert (S (length P)) steps (seaLevel b - seaLevel a)%Q)
      (seq 1 k) (P ++ a :: b :: rest)
    = P ++ a ::
        map (fun j =>
               mkPoint (timestamp a + Z.of_nat j * expectedInterval)
                 (seaLevel a + (seaLevel b - seaLevel a) * Num.ofNat j / inject_Z (steps + 1))%Q
                 (-1))
          (seq 1 k)
        ++ b :: rest.
Proof.
  induction k as [|k IH]; [reflexivity|].
  rewrite seq_S, fold_left_app, IH, map_app. cbn [fold_left map].
  unfold fillGaps_insert.
  replace (S (length P) - 1)%nat with (length P) by lia.
  rewrite at_middle.
  set (mid := map _ (seq 1 k)).
  replace (P ++ a :: mid ++ b :: rest) with ((P ++ a :: mid) ++ b :: rest)
    by (rewrite <- app_assoc; reflexivity).
  replace (length P + (1 + k))%nat with (length (P ++ a :: mid))
    by (rewrite length_app; simpl; unfold mid; rewrite length_map, length_seq; lia).
  rewrite splice_at_end. rewrite <- !app_assoc. cbn [app]. reflexivity.
Qed.

(** The outer loop, started on the pair that begins at [a]. *)
Lemma fillGaps_loop_spec :
  forall fuel P a rest,
    (length rest <= fuel)%nat ->
    fillGaps_loop fuel (P ++ a :: rest) (S (length P)) = P ++ fillGaps_spec (a :: rest).
Proof.
  induction fuel as [|fuel IH]; intros P a rest Hfuel.
  - destruct rest; [reflexivity | simpl in Hfuel; lia].
  - destruct rest as [|b rest].
    + simpl. rewrite length_app. simpl.
      replace (length P + 1)%nat with (S (length P)) by lia.
      now rewrite Nat.ltb_irrefl.
    + cbn [fillGaps_loop].
      assert (Hlt : (S (length P) <? length (P ++ a :: b :: rest))%nat = true).
      { apply Nat.ltb_lt. rewrite length_app. simpl. lia. }
      rewrite Hlt.
      replace (S (length P) - 1)%nat with (length P) by lia.
      rewrite at_middle, at_middle_next.
      cbn [fillGaps_spec]. unfold interpolated.
      destruct (timestamp b - timestamp a >? expectedInterval * 2)%Z.
      * rewrite fillGaps_inner.
        set (mid := map _ (seq 1 _)).
        replace (P ++ a :: mid ++ b :: rest) with ((P ++ a :: mid) ++ b :: rest)
          by (rewrite <- app_assoc; reflexivity).
        replace (S (length P) + Z.to_nat ((timestamp b - timestamp a) / expectedInterval - 1) + 1)%nat
          with (S (length (P ++ a :: mid)))
          by (rewrite length_app; simpl; unfold mid; rewrite length_map, length_seq; lia).
        rewrite IH by (simpl in Hfuel; lia).
        rewrite <- app_assoc. reflexivity.
      * replace (P ++ a :: b :: rest) with ((P ++ [a]) ++ b :: rest)
          by (rewrite <- app_assoc; reflexivity).
        replace (S (length P) + 1)%nat with (S (length (P ++ [a])))
          by (rewrite length_app; simpl; lia).
        rewrite IH by (simpl in Hfuel; lia).
        rewrite <- app_assoc. reflexivity.
Qed.

Lemma fillGaps_is_spec (input : list DataPoint) : fillGaps input = fillGaps_spec input.
Proof.
  unfold fillGaps. destruct input as [|a rest]; [reflexivity|].
  apply (@fillGaps_loop_spec (length (a :: rest)) [] a rest). simpl. lia.
Qed.

End GapFiller.

Lemma interpolated_gap (a b : DataPoint) :
  (expectedInterval * 2 < timestamp b - timestamp a)%Z ->
  let steps := ((timestamp b - timestamp a) / expectedInterval - 1)%Z in
  (1 <= steps)%Z
  /\ length (interpolated a b) = Z.to_nat steps
  /\ forall j, (1 <= j <= Z.to_nat steps)%nat ->
       nth_error (interpolated a b) (j - 1)
       = Some (mkPoint (timestamp a + Z.of_nat j * expectedInterval)
                 (seaLevel a + (seaLevel b - seaLevel a) * Num.ofNat j / inject_Z (steps + 1))%Q
                 (-1)).
Proof.
  intros Hgap steps.
  assert (Hsteps : (1 <= steps)%Z).
  { unfold steps, expectedInterval in *.
    assert (2 <= (timestamp b - timestamp a) / 60000)%Z
      by (apply Z.div_le_lower_bound; lia).
    lia. }
  unfold interpolated.
  assert (E : (timestamp b - timestamp a >? expectedInterval * 2)%Z = true)
    by (apply Z.gtb_lt; exact Hgap).
  rewrite E. fold steps.
  split; [exact Hsteps|]. split; [now rewrite length_map, length_seq|].
  intros j Hj. rewrite nth_error_map.
  rewrite nth_error_nth' with (d := 0%nat) by (rewrite length_seq; lia).
  rewrite seq_nth by lia. unfold option_map.
  replace (1 + (j - 1))%nat with j by lia. reflexivity.
Qed.

Lemma interpolated_no_gap (a b : DataPoint) :
  (timestamp b - timestamp a <= expectedInterval * 2)%Z -> interpolated a b = [].
Proof.
  intros H. unfold interpolated.
  destruct (timestamp b - timestamp a >? expectedInterval * 2)%Z eqn:E; [|reflexivity].
  apply Z.gtb_lt in E. lia.
Qed.

(** C4. The gap filler returns the series in which every pair of consecutive
    samples more than two 60000 ms intervals apart has gained
    [floor(delta / interval) - 1] samples between its two samples, the
    [j]-th of them [j] minutes after the first sample of the pair, at level
    [level_a + (level_b - level_a) * j / floor(delta / interval)], marked
    [originalIndex = -1]; a pair at most two intervals apart gains nothing.
    In particular two samples 5 minutes apart at levels 1.0 and 1.5 gain
    exactly 4 samples, at levels 1.1, 1.2, 1.3 and 1.4. *)
Theorem gap_fill_linear_interpolation :
  (forall input, fillGaps input = fillGaps_spec input)
  /\ (forall a b, fillGaps [a; b] = a :: interpolated a b ++ [b])
  /\ (forall a b,
        (expectedInterval * 2 < timestamp b - timestamp a)%Z ->
        let steps := ((timestamp b - timestamp a) / expectedInterval - 1)%Z in
        (1 <= steps)%Z
        /\ length (interpolated a b) = Z.to_nat steps
        /\ forall j, (1 <= j <= Z.to_nat steps)%nat ->
             nth_error (interpolated a b) (j - 1)
             = Some (mkPoint (timestamp a + Z.of_nat j * expectedInterval)
                       (seaLevel a
                        + (seaLevel b - seaLevel a) * Num.ofNat j / inject_Z (steps + 1))%Q
                       (-1)))
  /\ (forall a b,
        (timestamp b - timestamp a <= expectedInterval * 2)%Z -> interpolated a b = [])
  /\ (forall a b,
        timestamp b = (timestamp a + 5 * 60000)%Z ->
        (seaLevel a == 1)%Q -> (seaLevel b == 3 # 2)%Q ->
        exists p1 p2 p3 p4,
          fillGaps [a; b] = [a; p1; p2; p3; p4; b]
          /\ map timestamp [p1; p2; p3; p4]
             = [timestamp a + 60000; timestamp a + 120000;
                timestamp a + 180000; timestamp a + 240000]%Z
          /\ map originalIndex [p1; p2; p3; p4] = [-1; -1; -1; -1]%Z
          /\ Forall2 Qeq (map seaLevel [p1; p2; p3; p4])
               [11 # 10; 12 # 10; 13 # 10; 14 # 10]%Q).
Proof.
  split; [exact fillGaps_is_spec|].
  split; [intros a b; rewrite fillGaps_is_spec; reflexivity|].
  split; [exact interpolated_gap|].
  split; [exact interpolated_no_gap|].
  intros a b Hts Ha Hb.
  rewrite fillGaps_is_spec. cbn [fillGaps_spec]. unfold interpolated.
  replace (timestamp b - timestamp a)%Z with 300000%Z by lia.
  cbn -[Qplus Qmult Qdiv Qminus Z.add].
  do 4 eexists. split; [reflexivity|].
  split; [reflexivity|]. split; [reflexivity|].
  cbn [map seaLevel].
  repeat constructor; rewrite Ha, Hb; reflexivity.
Qed.

Lemma gap_fill_linear_interpolation_witness :
  map (fun p => (timestamp p, Qred (seaLevel p), originalIndex p))
    (fillGaps [mkPoint 0 1 0; mkPoint 300000 (3 # 2) 1])
  = [(0%Z, 1%Q, 0%Z); (60000%Z, (11 # 10)%Q, (-1)%Z); (120000%Z, (6 # 5)%Q, (-1)%Z);
     (180000%Z, (13 # 10)%Q, (-1)%Z); (240000%Z, (7 # 5)%Q, (-1)%Z);
     (300000%Z, (3 # 2)%Q, 1%Z)]
  /\ fillGaps [mkPoint 0 1 0; mkPoint 120000 (3 # 2) 1]
     = [mkPoint 0 1 0; mkPoint 120000 (3 # 2) 1].
Proof.
  destruct gap_fill_linear_interpolation as [Hspec [Hpair [_ [Hnone _]]]].
  split.
  - rewrite Hpair. vm_compute. reflexivity.
  - rewrite Hpair, Hnone; [reflexivity | vm_compute; discriminate].
Defined.

(** ** The spectral analyzer *)

Lemma ofNat_lt (i n : nat) : (Num.ofNat i < Num.ofNat n)%Q <-> (i < n)%nat.
Proof. unfold Num.ofNat. rewrite <- Zlt_Qlt. lia. Qed.

Lemma ofNat_le (i n : nat) : (Num.ofNat i <= Num.ofNat n)%Q <-> (i <= n)%nat.
Proof. unfold Num.ofNat. rewrite <- Zle_Qle. lia. Qed.

Lemma ofNat_double (i : nat) : (Num.ofNat (2 * i) == 2 * Num.ofNat i)%Q.
Proof.
  unfold Num.ofNat. rewrite Nat2Z.inj_mul, inject_Z_mult. reflexivity.
Qed.

(** The loop test [i < n / 2] holds exactly when [2 i < n]. *)
Lemma half_bound (i n : nat) :
  Num.ltb (Num.ofNat i) (Num.ofNat n / 2) = (2 * i <? n)%nat.
Proof.
  destruct (2 * i <? n)%nat eqn:E.
  - apply Nat.ltb_lt in E. apply ltb_true.
    assert (H : (Num.ofNat (2 * i) < Num.ofNat n)%Q) by (apply ofNat_lt; exact E).
    rewrite ofNat_double in H.
    unfold Qdiv; change (/ 2)%Q with (1 # 2)%Q; lra.
  - apply Nat.ltb_ge in E. apply ltb_false.
    assert (H : (Num.ofNat n <= Num.ofNat (2 * i))%Q) by (apply ofNat_le; exact E).
    rewrite ofNat_double in H.
    unfold Qdiv; change (/ 2)%Q with (1 # 2)%Q; lra.
Qed.

(** In exact arithmetic the product of the loop is [i / n]; the bounds on
    the bins are derived from this. *)
Lemma bin_frequency (i n : nat) :
  (0 < n)%nat ->
  (Num.ofNat i * ((1 # 2) / (Num.ofNat n / 2)) == Num.ofNat i / Num.ofNat n)%Q.
Proof.
  intros Hn. assert (H : (0 < Num.ofNat n)%Q) by (apply (ofNat_lt 0 n); exact Hn).
  field. lra.
Qed.

Section Spectral.
Variable M : MathLib.

(** The frequency and the power of bin [i], as the loop computes them. *)
Definition binFrequency (freqStep : Q) (i : nat) : Q := (Num.ofNat i * freqStep)%Q.

Definition binPower (values : list Q) (freqStep : Q) (i : nat) : Q :=
  (Qabs (correlate M values (binFrequency freqStep i)) / Num.ofNat (length values))%Q.

(** The number of bins: [n / 2] rounded up. *)
Definition binCount (n : nat) : nat := ((n + 1) / 2)%nat.

Lemma spectral_loop_bins (values : list Q) (freqStep : Q) :
  forall fuel i fs ps,
    (binCount (length values) - i <= fuel)%nat ->
    spectral_loop M fuel values freqStep i (fs, ps)
    = (fs ++ map (binFrequency freqStep) (seq i (binCount (length values) - i)),
       ps ++ map (binPower values freqStep) (seq i (binCount (length values) - i))).
Proof.
  unfold binCount.
  induction fuel as [|fuel IH]; intros i fs ps Hfuel.
  - replace ((length values + 1) / 2 - i)%nat with 0%nat by lia.
    simpl. now rewrite !app_nil_r.
  - cbn [spectral_loop]. rewrite half_bound.
    destruct (2 * i <? length values)%nat eqn:E.
    + apply Nat.ltb_lt in E.
      assert (Hi : (i < (length values + 1) / 2)%nat).
      { apply Nat.div_le_lower_bound; lia. }
      rewrite IH by lia. cbn [fst snd].
      replace ((length values + 1) / 2 - i)%nat
        with (S ((length values + 1) / 2 - S i))%nat by lia.
      cbn [seq map]. rewrite <- !app_assoc. reflexivity.
    + apply Nat.ltb_ge in E.
      assert (Hi : ((length values + 1) / 2 <= i)%nat)
        by (apply Nat.lt_succ_r, Nat.Div0.div_lt_upper_bound; lia).
      replace ((length values + 1) / 2 - i)%nat with 0%nat by lia.
      simpl. now rewrite !app_nil_r.
Qed.

Lemma binCount_le (n : nat) : (binCount n <= n)%nat.
Proof.
  unfold binCount. destruct n; [reflexivity|].
  apply Nat.lt_succ_r, Nat.Div0.div_lt_upper_bound. lia.
Qed.

Lemma binCount_half (i n : nat) : (i < binCount n)%nat <-> (2 * i < n)%nat.
Proof.
  unfold binCount. split; intros H.
  - assert (H2 : (2 * ((n + 1) / 2) <= n + 1)%nat) by (apply Nat.Div0.mul_div_le).
    lia.
  - apply Nat.div_le_lower_bound; lia.
Qed.

End Spectral.

Section Dominant.
Variable M : MathLib.

(** What the search for the dominant frequency has established after the
    bins below [k]: [maxPower] bounds the power of every bin of positive
    frequency seen, and either nothing was selected yet or the selected bin
    is the first one of positive frequency that attains [maxPower], which
    is positive. *)
Definition dominantInv (fs ps : list Q) (k : nat) (st : Q * Q) : Prop :=
  (0 <= fst st)%Q
  /\ (forall j, (j < k)%nat -> (0 < nth j fs 0)%Q -> (nth j ps 0 <= fst st)%Q)
  /\ (st = (0%Q, 0%Q)
      \/ exists i, (i < k)%nat /\ (0 < nth i fs 0)%Q
                   /\ st = (nth i ps 0%Q, nth i fs 0%Q)
                   /\ (0 < nth i ps 0)%Q
                   /\ forall j, (j < i)%nat -> (0 < nth j fs 0)%Q ->
                                (nth j ps 0 < nth i ps 0)%Q).

Lemma dominant_step_inv (fs ps : list Q) (k : nat) (st : Q * Q) :
  dominantInv fs ps k st -> dominantInv fs ps (S k) (dominant_step fs ps st k).
Proof.
  intros [Hpos [Hbound Hsel]]. unfold dominant_step.
  destruct (Num.gtb (nth k ps 0) (fst st)) eqn:Ep;
    [destruct (Num.gtb (nth k fs 0) 0) eqn:Ef|]; cbn [andb].
  - apply gtb_true in Ep. apply gtb_true in Ef.
    split; [cbn [fst]; apply Qlt_le_weak; eapply Qle_lt_trans; eassumption|].
    split.
    + intros j Hj Hfj. cbn [fst].
      destruct (Nat.eq_dec j k) as [->|Hne]; [apply Qle_refl|].
      apply Qlt_le_weak. eapply Qle_lt_trans; [apply Hbound; [lia | assumption] | exact Ep].
    + right. exists k. split; [lia|]. split; [exact Ef|]. split; [reflexivity|].
      split; [eapply Qle_lt_trans; eassumption|].
      intros j Hj Hfj. eapply Qle_lt_trans; [apply Hbound; assumption | exact Ep].
  - apply gtb_false in Ef.
    split; [assumption|]. split.
    + intros j Hj Hfj.
      destruct (Nat.eq_dec j k) as [->|Hne]; [exfalso; lra | apply Hbound; [lia | assumption]].
    + destruct Hsel as [E | [i [Hi Hrest]]]; [now left | right; exists i; split; [lia | exact Hrest]].
  - apply gtb_false in Ep.
    split; [assumption|]. split.
    + intros j Hj Hfj.
      destruct (Nat.eq_dec j k) as [->|Hne]; [exact Ep | apply Hbound; [lia | assumption]].
    + destruct Hsel as [E | [i [Hi Hrest]]]; [now left | right; exists i; split; [lia | exact Hrest]].
Qed.

Lemma dominant_fold_inv (fs ps : list Q) :
  forall k, dominantInv fs ps k (fold_left (dominant_step fs ps) (seq 0 k) (0%Q, 0%Q)).
Proof.
  induction k as [|k IH].
  - split; [apply Qle_refl|]. split; [intros j Hj; lia | now left].
  - rewrite seq_S, fold_left_app. cbn [fold_left Nat.add].
    now apply dominant_step_inv.
Qed.

Lemma nth_map_seq (f : nat -> Q) (c i : nat) (d : Q) :
  (i < c)%nat -> nth i (map f (seq 0 c)) d = f i.
Proof.
  intros Hi. rewrite nth_indep with (d' := f 0%nat) by (now rewrite length_map, length_seq).
  rewrite map_nth, seq_nth by assumption. reflexivity.
Qed.

(** [computeSpectralAnalysis] with its two loops in closed form. *)
Lemma computeSpectralAnalysis_bins (input : list DataPoint) :
  let values := map seaLevel input in
  let freqStep := ((1 # 2) / (Num.ofNat (length values) / 2))%Q in
  let fs := map (binFrequency freqStep) (seq 0 (binCount (length values))) in
  let ps := map (binPower M values freqStep) (seq 0 (binCount (length values))) in
  let st := fold_left (dominant_step fs ps) (seq 0 (length ps)) (0%Q, 0%Q) in
  computeSpectralAnalysis M input
  = mkSpectral fs ps (snd st) (if Num.gtb (snd st) 0 then (1 / snd st)%Q else 0%Q).
Proof.
  intros values freqStep fs ps st. unfold computeSpectralAnalysis.
  fold values. fold freqStep.
  rewrite spectral_loop_bins by (rewrite Nat.sub_0_r; apply binCount_le).
  rewrite Nat.sub_0_r. cbn [app]. fold fs. fold ps.
  fold st. destruct st as [mp df]. reflexivity.
Qed.

Lemma computeSpectralAnalysis_count (input : list DataPoint) :
  length (frequencies (computeSpectralAnalysis M input)) = binCount (length input)
  /\ length (powers (computeSpectralAnalysis M input)) = binCount (length input).
Proof.
  rewrite computeSpectralAnalysis_bins. cbn [frequencies powers].
  now rewrite !length_map, !length_seq.
Qed.

End Dominant.

(** C5, as the code has it.  For a series of length [N] the spectral analyzer
    returns [N / 2] rounded up frequency bins (and as many powers); bin [i]
    holds the product [i * freqStep] of the loop, with
    [freqStep = 0.5 / (N / 2)], so the bins are uniform steps as the code
    computes them: they start at 0, increase strictly and stay strictly
    below 0.5 cycles per minute.  The reported [dominantFrequency] is the
    frequency of the first bin of maximum power among the bins of positive
    frequency when that maximum is positive, and 0 when no bin of positive
    frequency has positive power. *)
Theorem spectral_bins_and_dominant (M : MathLib) (input : list DataPoint) :
  let sp := computeSpectralAnalysis M input in
  let n := length input in
  let count := ((n + 1) / 2)%nat in
  let freqStep := ((1 # 2) / (Num.ofNat n / 2))%Q in
  length (frequencies sp) = count
  /\ length (powers sp) = count
  /\ frequencies sp = map (fun i => (Num.ofNat i * freqStep)%Q) (seq 0 count)
  /\ (nth 0 (frequencies sp) 0 == 0)%Q
  /\ (forall i, (i < count)%nat ->
        nth i (frequencies sp) 0 = (Num.ofNat i * freqStep)%Q
        /\ (0 <= nth i (frequencies sp) 0)%Q
        /\ (nth i (frequencies sp) 0 < 1 # 2)%Q)
  /\ (forall i, (S i < count)%nat ->
        (nth i (frequencies sp) 0 < nth (S i) (frequencies sp) 0)%Q)
  /\ ((dominantFrequency sp = 0%Q
       /\ forall j, (j < count)%nat -> (0 < nth j (frequencies sp) 0)%Q ->
                    (nth j (powers sp) 0 <= 0)%Q)
      \/ exists i,
           (i < count)%nat
           /\ dominantFrequency sp = nth i (frequencies sp) 0%Q
           /\ (0 < nth i (frequencies sp) 0)%Q
           /\ (0 < nth i (powers sp) 0)%Q
           /\ (forall j, (j < count)%nat -> (0 < nth j (frequencies sp) 0)%Q ->
                         (nth j (powers sp) 0 <= nth i (powers sp) 0)%Q)
           /\ (forall j, (j < i)%nat -> (0 < nth j (frequencies sp) 0)%Q ->
                         (nth j (powers sp) 0 < nth i (powers sp) 0)%Q)).
Proof.
  intros sp n count freqStep. unfold sp.
  rewrite computeSpectralAnalysis_bins. cbn [frequencies powers dominantFrequency].
  rewrite !length_map, !length_seq.
  fold n. change (binCount n) with count. fold freqStep.
  set (fs := map (binFrequency freqStep) (seq 0 count)).
  set (ps := map (binPower M (map seaLevel input) freqStep) (seq 0 count)).
  assert (Hbin : forall i, (i < count)%nat ->
            nth i fs 0%Q = (Num.ofNat i * freqStep)%Q
            /\ (nth i fs 0 == Num.ofNat i / Num.ofNat n)%Q
            /\ (0 < Num.ofNat n)%Q).
  { intros i Hi. unfold fs. rewrite nth_map_seq by assumption.
    assert (H2 : (2 * i < n)%nat) by (apply binCount_half; exact Hi).
    split; [reflexivity|]. split; [|apply (ofNat_lt 0 n); lia].
    unfold binFrequency, freqStep. apply bin_frequency. lia. }
  split; [reflexivity|]. split; [reflexivity|]. split; [reflexivity|].
  split; [|split; [|split]].
  - destruct count as [|c] eqn:Ec; [reflexivity|].
    destruct (Hbin 0%nat ltac:(lia)) as [-> _].
    change (Num.ofNat 0) with 0%Q. apply Qmult_0_l.
  - intros i Hi. destruct (Hbin i Hi) as [E [Ef Hn]].
    split; [exact E|]. rewrite Ef.
    assert (H2 : (2 * i < n)%nat) by (apply binCount_half; exact Hi).
    assert (Hi0 : (0 <= Num.ofNat i)%Q) by (apply (ofNat_le 0 i); lia).
    assert (Hlt : (2 * Num.ofNat i < Num.ofNat n)%Q)
      by (rewrite <- ofNat_double; apply ofNat_lt; exact H2).
    split.
    + apply Qle_shift_div_l; [exact Hn | lra].
    + apply Qlt_shift_div_r; [exact Hn | lra].
  - intros i Hi.
    destruct (Hbin i ltac:(lia)) as [_ [Ei Hn]].
    destruct (Hbin (S i) Hi) as [_ [ESi _]].
    rewrite Ei, ESi.
    assert (Hstep : (Num.ofNat i < Num.ofNat (S i))%Q) by (apply ofNat_lt; lia).
    apply Qlt_shift_div_r; [exact Hn|].
    unfold Qdiv. rewrite <- Qmult_assoc, (Qmult_comm (/ Num.ofNat n)), Qmult_inv_r by lra.
    lra.
  - destruct (dominant_fold_inv fs ps count) as [Hpos [Hbound Hsel]].
    destruct Hsel as [E | [i [Hi [Hfi [E [Hpi Hfirst]]]]]].
    + left. rewrite E. split; [reflexivity|].
      intros j Hj Hfj. generalize (Hbound j Hj Hfj). now rewrite E.
    + right. exists i. rewrite E in *. cbn [fst snd] in *.
      repeat split; assumption.
Qed.

(** A series of odd length 3 has 2 frequency bins, which is neither 3 / 2
    nor its integer part. *)
Lemma spectral_bins_odd_length :
  (forall M, length (frequencies (computeSpectralAnalysis M threeLevels)) = 2%nat)
  /\ (length threeLevels / 2 = 1)%nat
  /\ ~ (forall M input,
           length (frequencies (computeSpectralAnalysis M input)) = (length input / 2)%nat)
  /\ ~ (forall M input,
           (2 * length (frequencies (computeSpectralAnalysis M input)))%nat = length input).
Proof.
  assert (H : forall M, length (frequencies (computeSpectralAnalysis M threeLevels)) = 2%nat).
  { intros M. now rewrite (proj1 (computeSpectralAnalysis_count M threeLevels)). }
  split; [exact H|]. split; [reflexivity|].
  split; intros Hall;
    specialize (Hall refMath threeLevels);
    rewrite H in Hall; discriminate.
Qed.

(** ** Sorting on construction *)

Section SortByTimestamp.

Definition tsLe (a b : DataPoint) : Prop := (timestamp a <= timestamp b)%Z.

Lemma insert_sorted (x : DataPoint) (l : list DataPoint) :
  StronglySorted tsLe l -> StronglySorted tsLe (insert byTimestamp x l).
Proof.
  induction 1 as [|y l Hl IH Hy]; simpl; [repeat constructor|].
  unfold byTimestamp at 1.
  destruct (timestamp x <=? timestamp y)%Z eqn:E.
  - apply Z.leb_le in E. constructor; [now constructor|].
    constructor; [exact E|].
    rewrite Forall_forall in *. intros z Hz. unfold tsLe in *.
    specialize (Hy z Hz). lia.
  - apply Z.leb_gt in E. constructor; [exact IH|].
    rewrite Forall_forall in *. intros z Hz.
    apply (Permutation_in _ (insert_perm byTimestamp x l)) in Hz.
    destruct Hz as [<-|Hz]; [unfold tsLe; lia | now apply Hy].
Qed.

Lemma sortBy_sorted (l : list DataPoint) : StronglySorted tsLe (sortBy byTimestamp l).
Proof.
  induction l as [|x l IH]; simpl; [constructor | now apply insert_sorted].
Qed.

(** A series without repeated timestamps has one sorted arrangement. *)
Lemma sorted_unique :
  forall l1 l2,
    Permutation l1 l2 ->
    StronglySorted tsLe l1 -> StronglySorted tsLe l2 ->
    NoDup (map timestamp l1) ->
    l1 = l2.
Proof.
  induction l1 as [|a l1 IH]; intros l2 Hperm Hs1 Hs2 Hnd.
  - apply Permutation_nil in Hperm. now subst.
  - destruct l2 as [|b l2];
      [apply Permutation_sym, Permutation_nil in Hperm; discriminate|].
    inversion Hs1 as [|? ? Hs1' Ha]; subst.
    inversion Hs2 as [|? ? Hs2' Hb]; subst.
    inversion Hnd as [|? ? Hnotin Hnd']; subst.
    rewrite Forall_forall in Ha, Hb.
    assert (Hbin : In b (a :: l1))
      by (apply (Permutation_in _ (Permutation_sym Hperm)); now left).
    assert (Hain : In a (b :: l2)) by (apply (Permutation_in _ Hperm); now left).
    assert (Eab : a = b).
    { destruct Hbin as [E|Hbin]; [exact E|].
      destruct Hain as [E|Hain]; [now symmetry|].
      exfalso. apply Hnotin.
      assert (Et : timestamp a = timestamp b).
      { specialize (Ha b Hbin). specialize (Hb a Hain). unfold tsLe in *. lia. }
      rewrite Et. now apply in_map. }
    subst b. f_equal. apply IH; try assumption.
    now apply Permutation_cons_inv in Hperm.
Qed.

Lemma sortBy_permutation_invariant (input input' : list DataPoint) :
  NoDup (map timestamp input) ->
  Permutation input input' ->
  sortBy byTimestamp input' = sortBy byTimestamp input.
Proof.
  intros Hnd Hperm. symmetry. apply sorted_unique.
  - rewrite (sortBy_perm byTimestamp input), (sortBy_perm byTimestamp input'). exact Hperm.
  - apply sortBy_sorted.
  - apply sortBy_sorted.
  - apply (Permutation_NoDup (l := map timestamp input)); [|exact Hnd].
    apply Permutation_map, Permutation_sym, sortBy_perm.
Qed.

End SortByTimestamp.

(** C3, as the code has it.  When no two samples of the input share a
    timestamp, an engine built on any permutation of the input returns the
    same decomposition and the same events as the engine built on the input
    itself. *)
Theorem analysis_permutation_invariant (M : MathLib) (cfg : AnalysisConfig)
    (input input' : list DataPoint) :
  NoDup (map timestamp input) ->
  Permutation input input' ->
  constructor input' cfg = constructor input cfg
  /\ runFullAnalysis M (constructor input' cfg) = runFullAnalysis M (constructor input cfg).
Proof.
  intros Hnd Hperm.
  assert (E : constructor input' cfg = constructor input cfg).
  { unfold constructor. now rewrite (sortBy_permutation_invariant Hnd Hperm). }
  split; [exact E | now rewrite E].
Qed.

(** Two samples share the timestamp 0; the second series swaps them. *)
Definition repeatedStamp : list DataPoint :=
  [mkPoint 0 0 0; mkPoint 0 10 1; mkPoint 60000 5 2; mkPoint 120000 7 3].

Definition repeatedStampSwapped : list DataPoint :=
  [mkPoint 0 10 1; mkPoint 0 0 0; mkPoint 60000 5 2; mkPoint 120000 7 3].

Definition lowpassConfig : AnalysisConfig := mkConfig lowpass 1 Low None None.

(** With a repeated timestamp the order of the input shows in the result:
    the stable sort keeps the two samples in their input order and the
    median window of the last sample holds the second of them. *)
Lemma repeated_timestamp_order_matters :
  Permutation repeatedStamp repeatedStampSwapped
  /\ (forall M,
        map seaLevel (original (fst (runFullAnalysis M (constructor repeatedStamp lowpassConfig))))
        = [5; 7; 7; 7]%Q
        /\ map seaLevel
             (original (fst (runFullAnalysis M (constructor repeatedStampSwapped lowpassConfig))))
           = [5; 7; 7; 5]%Q)
  /\ ~ (forall M cfg input input',
           Permutation input input' ->
           runFullAnalysis M (constructor input' cfg) = runFullAnalysis M (constructor input cfg)).
Proof.
  assert (Hperm : Permutation repeatedStamp repeatedStampSwapped) by apply perm_swap.
  assert (Hval : forall M,
             map seaLevel
               (original (fst (runFullAnalysis M (constructor repeatedStamp lowpassConfig))))
             = [5; 7; 7; 7]%Q
             /\ map seaLevel
                  (original
                     (fst (runFullAnalysis M (constructor repeatedStampSwapped lowpassConfig))))
                = [5; 7; 7; 5]%Q).
  { intros M. split; vm_compute; reflexivity. }
  split; [exact Hperm|]. split; [exact Hval|].
  intros Hall.
  destruct (Hval refMath) as [H1 H2].
  rewrite (Hall refMath lowpassConfig repeatedStamp repeatedStampSwapped Hperm) in H2.
  rewrite H1 in H2. discriminate.
Qed.

Lemma analysis_permutation_invariant_witness :
  constructor [mkPoint 60000 2 1; mkPoint 0 1 0; mkPoint 120000 3 2] lowpassConfig
  = constructor [mkPoint 0 1 0; mkPoint 60000 2 1; mkPoint 120000 3 2] lowpassConfig
  /\ runFullAnalysis refMath
       (constructor [mkPoint 60000 2 1; mkPoint 0 1 0; mkPoint 120000 3 2] lowpassConfig)
     = runFullAnalysis refMath
         (constructor [mkPoint 0 1 0; mkPoint 60000 2 1; mkPoint 120000 3 2] lowpassConfig).
Proof.
  apply analysis_permutation_invariant.
  - repeat constructor; simpl; intuition discriminate.
  - apply perm_swap.
Defined.

(** ** The aliased-activity detector *)

Section MapIndex.
Context {A B : Type}.

Lemma mapi_from_map {C : Type} (h : B -> C) (g : A -> nat -> B) (l : list A) :
  forall i, map h (mapi_from g i l) = mapi_from (fun x k => h (g x k)) i l.
Proof. induction l as [|x l IH]; intros i; simpl; [reflexivity | now rewrite IH]. Qed.

Lemma mapi_from_const (g : A -> B) (l : list A) :
  forall i, mapi_from (fun x _ => g x) i l = map g l.
Proof. induction l as [|x l IH]; intros i; simpl; [reflexivity | now rewrite IH]. Qed.

Lemma mapi_from_In (g : A -> nat -> B) (l : list A) (e : B) :
  forall i, In e (mapi_from g i l) -> exists x k, e = g x k.
Proof.
  induction l as [|x l IH]; intros i; simpl; [tauto|].
  intros [<-|H]; [now exists x, i | now apply (IH (S i))].
Qed.

Lemma filter_map_commute (f : A -> B) (p : B -> bool) (l : list A) :
  filter p (map f l) = map f (filter (fun x => p (f x)) l).
Proof.
  induction l as [|x l IH]; simpl; [reflexivity|].
  destruct (p (f x)); simpl; now rewrite IH.
Qed.

End MapIndex.

Lemma mapi_from_indexed (l : list Q) :
  forall s, mapi_from (fun v i => (v, i)) s l
            = map (fun i => (nth (i - s) l 0%Q, i)) (seq s (length l)).
Proof.
  induction l as [|x l IH]; intros s; simpl; [reflexivity|].
  rewrite Nat.sub_diag. f_equal. rewrite IH.
  apply map_ext_in. intros i Hi. apply in_seq in Hi.
  replace (i - s)%nat with (S (i - S s)) by lia. reflexivity.
Qed.

Lemma findIndex_from_spec (p : Q -> bool) (l : list Q) :
  forall s k,
    findIndex_from p s l = Some k ->
    (s <= k < s + length l)%nat
    /\ p (nth (k - s) l 0%Q) = true
    /\ forall j, (s <= j < k)%nat -> p (nth (j - s) l 0%Q) = false.
Proof.
  induction l as [|x l IH]; intros s k; simpl; [discriminate|].
  destruct (p x) eqn:E.
  - intros [= <-]. rewrite Nat.sub_diag. split; [lia|]. split; [exact E | intros j Hj; lia].
  - intros H. destruct (IH (S s) k H) as [Hk [Hp Hbefore]].
    split; [lia|]. split.
    + replace (k - s)%nat with (S (k - S s)) by lia. exact Hp.
    + intros j Hj. destruct (Nat.eq_dec j s) as [->|Hne].
      * now rewrite Nat.sub_diag.
      * replace (j - s)%nat with (S (j - S s)) by lia. apply Hbefore. lia.
Qed.

Lemma findIndex_from_complete (p : Q -> bool) (l : list Q) :
  forall s k,
    (s <= k < s + length l)%nat ->
    p (nth (k - s) l 0%Q) = true ->
    (forall j, (s <= j < k)%nat -> p (nth (j - s) l 0%Q) = false) ->
    findIndex_from p s l = Some k.
Proof.
  induction l as [|x l IH]; intros s k Hk Hp Hbefore; simpl in *; [lia|].
  destruct (Nat.eq_dec k s) as [->|Hne].
  - rewrite Nat.sub_diag in Hp. now rewrite Hp.
  - assert (E : p x = false).
    { specialize (Hbefore s). rewrite Nat.sub_diag in Hbefore. apply Hbefore. lia. }
    rewrite E. apply IH; [lia | |].
    + replace (k - s)%nat with (S (k - S s)) in Hp by lia. exact Hp.
    + intros j Hj. specialize (Hbefore j).
      replace (j - s)%nat with (S (j - S s)) in Hbefore by lia. apply Hbefore. lia.
Qed.

Section Aliased.
Variable M : MathLib.

(** The bin whose power the detector tests: the first bin whose frequency is
    at least nine tenths of the Nyquist frequency. *)
Definition testedBin (freqs : list Q) (k : nat) : Prop :=
  (k < length freqs)%nat
  /\ (9 # 20 <= nth k freqs 0)%Q
  /\ forall j, (j < k)%nat -> (nth j freqs 0 < 9 # 20)%Q.

Lemma findIndex_testedBin (freqs : list Q) (k : nat) :
  findIndex (fun f => Num.geb f (nyquistFreq * (9 # 10))) freqs = Some k
  <-> testedBin freqs k.
Proof.
  unfold findIndex, testedBin. split.
  - intros H. apply findIndex_from_spec in H. destruct H as [Hk [Hp Hbefore]].
    rewrite Nat.sub_0_r in Hp. split; [lia|]. split.
    + apply geb_true in Hp. exact Hp.
    + intros j Hj. specialize (Hbefore j). rewrite Nat.sub_0_r in Hbefore.
      apply (leb_false (nyquistFreq * (9 # 10)) (nth j freqs 0)). apply Hbefore. lia.
  - intros [Hk [Hp Hbefore]]. apply findIndex_from_complete.
    + lia.
    + rewrite Nat.sub_0_r. apply geb_true. exact Hp.
    + intros j Hj. rewrite Nat.sub_0_r.
      apply (leb_false (nyquistFreq * (9 # 10)) (nth j freqs 0)). apply Hbefore. lia.
Qed.

(** The span reported for the variance window that starts at index [i]. *)
Definition aliasedSpan (residuals : list DataPoint) (i : nat) : Z * option Z :=
  (timestamp (at_ residuals i),
   Some (timestamp (at_ residuals (Nat.min (i + 10) (length residuals - 1))))).

Definition meanPowerOf (sp : SpectralAnalysis) : Q :=
  (Num.sum (powers sp) / Num.ofNat (length (powers sp)))%Q.

(** The indices of the variance values above the variance threshold. *)
Definition highVarianceIndices (residuals : list DataPoint) : list nat :=
  let variance := calculateMovingVariance residuals 10 in
  filter (fun i => Num.gtb (nth i variance 0%Q) (calculateVarianceThreshold M variance))
    (seq 0 (length variance)).

Lemma detectAliasedActivity_triggered (residuals : list DataPoint) (k : nat) :
  let sp := computeSpectralAnalysis M residuals in
  testedBin (frequencies sp) k ->
  (meanPowerOf sp * 3 < nth k (powers sp) 0)%Q ->
  map (fun e => (startTime e, endTime e)) (detectAliasedActivity M residuals)
  = map (aliasedSpan residuals) (highVarianceIndices residuals).
Proof.
  intros sp Hbin Hpow. unfold detectAliasedActivity. fold sp.
  apply findIndex_testedBin in Hbin. rewrite Hbin.
  apply gtb_true in Hpow. unfold meanPowerOf in Hpow. rewrite Hpow.
  unfold mapi. rewrite mapi_from_map. cbn [startTime endTime].
  rewrite (mapi_from_const (fun period : Z * Z * Q => (fst (fst period), Some (snd (fst period))))).
  rewrite map_map. cbn [fst snd].
  rewrite mapi_from_indexed, filter_map_commute, map_map. cbn [fst snd].
  unfold highVarianceIndices, aliasedSpan.
  apply f_equal2; [reflexivity|].
  apply filter_ext_in. intros i Hi. apply in_seq in Hi.
  now rewrite Nat.sub_0_r.
Qed.

Lemma detectAliasedActivity_not_triggered (residuals : list DataPoint) :
  let sp := computeSpectralAnalysis M residuals in
  (forall k, testedBin (frequencies sp) k -> (nth k (powers sp) 0 <= meanPowerOf sp * 3)%Q) ->
  detectAliasedActivity M residuals = [].
Proof.
  intros sp H. unfold detectAliasedActivity. fold sp.
  destruct (findIndex _ (frequencies sp)) as [k|] eqn:E; [|reflexivity].
  apply findIndex_testedBin in E. specialize (H k E).
  apply gtb_false in H. unfold meanPowerOf in H. now rewrite H.
Qed.

Lemma detectAliasedActivity_kind (residuals : list DataPoint) (e : DetectedEvent) :
  In e (detectAliasedActivity M residuals) ->
  type e = AliasedActivity /\ confidence e = Low.
Proof.
  unfold detectAliasedActivity.
  destruct (findIndex _ _) as [k|]; [|intros []].
  destruct (Num.gtb _ _); [|intros []].
  intros H. apply mapi_from_In in H. destruct H as [x [i ->]]. split; reflexivity.
Qed.

Lemma calculateMovingVariance_length (residuals : list DataPoint) (w : nat) :
  length (calculateMovingVariance residuals w) = (length residuals - w)%nat.
Proof. unfold calculateMovingVariance. now rewrite length_map, length_seq. Qed.

End Aliased.

(** C7, as the code has it.  The aliased-activity detector emits events only
    when the power of the first spectral bin whose frequency is at least 0.45
    cycles per minute (nine tenths of the Nyquist frequency) exceeds 3 times
    the mean spectral power; its events are Low-confidence "Aliased Activity"
    events; and when that bin's power does exceed 3 times the mean, there is
    one event for each 10-sample moving-variance value above mean plus two
    standard deviations of the variance series, in order, from the first
    sample of the window to the sample 10 places later (the index clamped to
    the last index of the series). *)
Theorem aliased_activity_trigger (M : MathLib) (residuals : list DataPoint) :
  let sp := computeSpectralAnalysis M residuals in
  let variance := calculateMovingVariance residuals 10 in
  let events := detectAliasedActivity M residuals in
  (events <> [] ->
   exists k, testedBin (frequencies sp) k /\ (meanPowerOf sp * 3 < nth k (powers sp) 0)%Q)
  /\ (forall e, In e events -> type e = AliasedActivity /\ confidence e = Low)
  /\ (forall k,
        testedBin (frequencies sp) k ->
        (meanPowerOf sp * 3 < nth k (powers sp) 0)%Q ->
        map (fun e => (startTime e, endTime e)) events
        = map (aliasedSpan residuals) (highVarianceIndices M residuals)
        /\ length events = length (highVarianceIndices M residuals))
  /\ (forall i,
        In i (highVarianceIndices M residuals)
        <-> (i < length residuals - 10)%nat
            /\ (calculateVarianceThreshold M variance < nth i variance 0)%Q).
Proof.
  intros sp variance events. split; [|split; [|split]].
  - intros Hne.
    destruct (findIndex (fun f => Num.geb f (nyquistFreq * (9 # 10))) (frequencies sp))
      as [k|] eqn:E.
    + destruct (Num.gtb (nth k (powers sp) 0) (meanPowerOf sp * 3)) eqn:Ep.
      * exists k. split; [now apply findIndex_testedBin | now apply gtb_true].
      * exfalso. apply Hne. unfold events, detectAliasedActivity. fold sp.
        rewrite E. unfold meanPowerOf in Ep. now rewrite Ep.
    + exfalso. apply Hne. unfold events, detectAliasedActivity. fold sp. now rewrite E.
  - intros e. apply detectAliasedActivity_kind.
  - intros k Hbin Hpow.
    assert (Hspan := @detectAliasedActivity_triggered M residuals k Hbin Hpow).
    split; [exact Hspan|].
    apply (f_equal (@length _)) in Hspan. now rewrite !length_map in Hspan.
  - intros i. unfold highVarianceIndices. fold variance.
    rewrite filter_In, in_seq, gtb_true.
    unfold variance at 1. rewrite calculateMovingVariance_length.
    split; intros [H1 H2]; (split; [lia | exact H2]).
Qed.

(** A 44-sample series that is 0 but for 130 at index 0 and 100 at indices
    11, 22 and 33: every sample of non-zero level sits at a multiple of a
    quarter turn of every bin. *)
Definition aliasSeries : list DataPoint :=
  map (fun i =>
         mkPoint (Z.of_nat i * 60000)
           (if (i =? 0)%nat then 130
            else if ((i =? 11) || (i =? 22) || (i =? 33))%nat then 100 else 0)%Q
           (Z.of_nat i))
    (seq 0 44).

Section ThresholdCompat.

Lemma refSqrt_compat (x y : Q) : (x == y)%Q -> refSqrt x = refSqrt y.
Proof.
  intros E. unfold refSqrt.
  assert (Eb : Qle_bool x 0 = Qle_bool y 0).
  { destruct (Qle_bool y 0) eqn:Ey.
    - apply Qle_bool_iff. apply Qle_bool_iff in Ey. now rewrite E.
    - apply not_true_iff_false. intros Ex. apply not_true_iff_false in Ey. apply Ey.
      apply Qle_bool_iff. apply Qle_bool_iff in Ex. now rewrite <- E. }
  rewrite Eb. destruct (Qle_bool y 0); [reflexivity|].
  f_equal. f_equal. apply Qfloor_comp. now rewrite E.
Qed.

Lemma sum_compat (l l' : list Q) :
  Forall2 Qeq l l' ->
  forall a a', (a == a')%Q -> (fold_left Qplus l a == fold_left Qplus l' a')%Q.
Proof.
  induction 1 as [|x y l l' Exy _ IH]; intros a a' Ea; simpl; [exact Ea|].
  apply IH. now rewrite Ea, Exy.
Qed.

Lemma sum_squares_compat (l l' : list Q) (m m' : Q) :
  Forall2 Qeq l l' -> (m == m')%Q ->
  forall a a', (a == a')%Q ->
    (fold_left (fun sum v => sum + (v - m) ^ 2) l a
     == fold_left (fun sum v => sum + (v - m') ^ 2) l' a')%Q.
Proof.
  intros HF Em. induction HF as [|x y l l' Exy _ IH]; intros a a' Ea; simpl; [exact Ea|].
  apply IH. now rewrite Ea, Exy, Em.
Qed.

Lemma Forall2_Qred (l : list Q) : Forall2 Qeq l (map Qred l).
Proof.
  induction l as [|x l IH]; simpl; constructor; [symmetry; apply Qred_correct | exact IH].
Qed.

(** The variance threshold does not depend on how the variances are written
    as fractions. *)
Lemma calculateVarianceThreshold_compat (l l' : list Q) :
  Forall2 Qeq l l' ->
  (calculateVarianceThreshold refMath l == calculateVarianceThreshold refMath l')%Q.
Proof.
  intros HF. unfold calculateVarianceThreshold, Num.sum. cbn [Math_sqrt refMath].
  assert (Elen : length l = length l') by (eapply Forall2_length; eassumption).
  rewrite <- Elen.
  assert (Em : (fold_left Qplus l 0 / Num.ofNat (length l)
                == fold_left Qplus l' 0 / Num.ofNat (length l))%Q).
  { apply Qmult_comp; [|reflexivity]. apply sum_compat; [exact HF | reflexivity]. }
  rewrite Em at 1.
  apply Qplus_comp; [reflexivity|]. apply Qmult_comp; [reflexivity|].
  rewrite (@refSqrt_compat
             (fold_left (fun sum v => sum + (v - fold_left Qplus l 0 / Num.ofNat (length l)) ^ 2)
                l 0 / Num.ofNat (length l))
             (fold_left (fun sum v => sum + (v - fold_left Qplus l' 0 / Num.ofNat (length l)) ^ 2)
                l' 0 / Num.ofNat (length l))); [reflexivity|].
  apply Qmult_comp; [|reflexivity].
  apply sum_squares_compat; [exact HF | exact Em | reflexivity].
Qed.

End ThresholdCompat.

(** The spectrum of [aliasSeries], evaluated. *)
Lemma aliasSeries_spectrum_values :
  let sp := computeSpectralAnalysis refMath aliasSeries in
  findIndex (fun f => Num.geb f (nyquistFreq * (9 # 10))) (frequencies sp) = Some 20%nat
  /\ Num.gtb (nth 20 (powers sp) 0) (meanPowerOf sp * 3) = true
  /\ Num.gtb (nth 21 (powers sp) 0) (meanPowerOf sp * 3) = false
  /\ nearestTo (1 # 2) (frequencies sp) = Some 21%nat.
Proof. vm_compute. repeat split. Qed.

(** Bin 20 (frequency 20/44) is the first at or above 0.45 and holds more
    than 3 times the mean power; bin 21 (frequency 21/44) is the nearest to
    0.5 and does not. *)
Lemma aliasSeries_spectrum :
  let sp := computeSpectralAnalysis refMath aliasSeries in
  testedBin (frequencies sp) 20
  /\ (meanPowerOf sp * 3 < nth 20 (powers sp) 0)%Q
  /\ (nth 21 (powers sp) 0 <= meanPowerOf sp * 3)%Q
  /\ nearestTo (1 # 2) (frequencies sp) = Some 21%nat.
Proof.
  pose proof aliasSeries_spectrum_values as E.
  cbv zeta in E. destruct E as [E1 [E2 [E3 E4]]].
  cbv zeta. split; [apply findIndex_testedBin; exact E1|].
  split; [apply gtb_true; exact E2|].
  split; [apply gtb_false; exact E3 | exact E4].
Qed.

(** The variances of [aliasSeries], evaluated: the first one is above the
    threshold computed on the variances in lowest terms. *)
Lemma aliasSeries_variance_values :
  let variance := calculateMovingVariance aliasSeries 10 in
  Num.gtb (nth 0 variance 0) (calculateVarianceThreshold refMath (map Qred variance)) = true
  /\ length aliasSeries = 44%nat.
Proof. vm_compute. split; reflexivity. Qed.

Lemma highVarianceIndices_In (M : MathLib) (residuals : list DataPoint) (i : nat) :
  In i (highVarianceIndices M residuals)
  <-> (i < length residuals - 10)%nat
      /\ (calculateVarianceThreshold M (calculateMovingVariance residuals 10)
          < nth i (calculateMovingVariance residuals 10) 0)%Q.
Proof.
  unfold highVarianceIndices.
  rewrite filter_In, in_seq, gtb_true, calculateMovingVariance_length.
  split; intros [H1 H2]; (split; [lia | exact H2]).
Qed.

(** The first variance window of [aliasSeries] is above the threshold. *)
Lemma aliasSeries_variance :
  (0 < length aliasSeries - 10)%nat
  /\ (calculateVarianceThreshold refMath (calculateMovingVariance aliasSeries 10)
      < nth 0 (calculateMovingVariance aliasSeries 10) 0)%Q.
Proof.
  pose proof aliasSeries_variance_values as E. cbv zeta in E. destruct E as [Ev El].
  split.
  - rewrite El. apply Nat.ltb_lt. reflexivity.
  - apply Qle_lt_trans
      with (y := calculateVarianceThreshold refMath
                   (map Qred (calculateMovingVariance aliasSeries 10))).
    + apply Qle_lteq. right.
      exact (calculateVarianceThreshold_compat
               (Forall2_Qred (calculateMovingVariance aliasSeries 10))).
    + apply gtb_true. exact Ev.
Qed.

(** On [aliasSeries] the detector emits an event, although the power of the
    bin nearest the Nyquist frequency does not exceed 3 times the mean
    spectral power: the bin it tests is bin 20, not bin 21. *)
Lemma aliased_activity_tests_lower_bin :
  let sp := computeSpectralAnalysis refMath aliasSeries in
  detectAliasedActivity refMath aliasSeries <> []
  /\ nearestTo (1 # 2) (frequencies sp) = Some 21%nat
  /\ (nth 21 (powers sp) 0 <= meanPowerOf sp * 3)%Q
  /\ testedBin (frequencies sp) 20.
Proof.
  pose proof aliasSeries_spectrum as S. cbv zeta in S.
  destruct S as [Hbin [Hpow [Hnear Hidx]]].
  cbv zeta. split; [|split; [exact Hidx | split; [exact Hnear | exact Hbin]]].
  intros Hnil.
  pose proof (proj2 (highVarianceIndices_In refMath aliasSeries 0) aliasSeries_variance)
    as Hin.
  pose proof (@detectAliasedActivity_triggered refMath aliasSeries 20 Hbin Hpow) as Hspan.
  apply (f_equal (@length _)) in Hspan. rewrite !length_map in Hspan.
  rewrite Hnil in Hspan.
  destruct (highVarianceIndices refMath aliasSeries); [exact Hin | discriminate Hspan].
Qed.

Lemma aliased_activity_trigger_witness :
  map (fun e => (startTime e, endTime e)) (detectAliasedActivity refMath aliasSeries)
  = map (aliasedSpan aliasSeries) (highVarianceIndices refMath aliasSeries)
  /\ length (detectAliasedActivity refMath aliasSeries)
     = length (highVarianceIndices refMath aliasSeries).
Proof.
  pose proof aliasSeries_spectrum as S. cbv zeta in S.
  destruct S as [Hbin [Hpow _]].
  pose proof (aliased_activity_trigger refMath aliasSeries) as T. cbv zeta in T.
  destruct T as [_ [_ [H _]]].
  exact (H 20%nat Hbin Hpow).
Defined.

(** * Further properties of the engine *)

(** ** The sort of the constructor *)

Section SortStable.
Context {A : Type} (leb : A -> A -> bool).

(** Sorting leaves an array that is already in order as it is. *)
Lemma sortBy_sorted_id (l : list A) :
  StronglySorted (fun a b => leb a b = true) l -> sortBy leb l = l.
Proof.
  induction 1 as [|x l Hl IH Hx]; [reflexivity|].
  simpl. rewrite IH. destruct l as [|y l']; [reflexivity|].
  simpl. inversion Hx as [|? ? Hxy _]; subst. now rewrite Hxy.
Qed.

(** Inserting [x] puts it in front of the elements that [p] selects, when
    [p] selects [x] and rejects what may stand before it. *)
Lemma filter_insert (p : A -> bool) (x : A) (l : list A) :
  (forall y, p x = true -> leb x y = false -> p y = false) ->
  filter p (insert leb x l) = filter p (x :: l).
Proof.
  intros Hp. induction l as [|y l IH]; [reflexivity|].
  cbn [insert]. destruct (leb x y) eqn:E; [reflexivity|].
  cbn [filter] in *. rewrite IH.
  destruct (p x) eqn:Ex; [|reflexivity].
  now rewrite (Hp y eq_refl E).
Qed.

End SortStable.

Lemma sortBy_timestamp_stable (t : Z) (l : list DataPoint) :
  filter (fun p => (timestamp p =? t)%Z) (sortBy byTimestamp l)
  = filter (fun p => (timestamp p =? t)%Z) l.
Proof.
  induction l as [|x l IH]; [reflexivity|].
  cbn [sortBy fold_right]. fold (sortBy byTimestamp l).
  rewrite filter_insert.
  - cbn [filter]. now rewrite IH.
  - intros y Hx Hxy. unfold byTimestamp in Hxy.
    apply Z.eqb_eq in Hx. apply Z.leb_gt in Hxy. apply Z.eqb_neq. lia.
Qed.

Lemma tsLe_sorted_leb (l : list DataPoint) :
  StronglySorted tsLe l -> StronglySorted (fun a b => byTimestamp a b = true) l.
Proof.
  induction 1 as [|x l Hl IH Hx]; constructor; [exact IH|].
  rewrite Forall_forall in *. intros y Hy. apply Z.leb_le. now apply Hx.
Qed.

(** X1. The series the engine keeps is the input in non-decreasing order of
    timestamp: a permutation of the input in which samples of equal
    timestamp keep their input order.  An input already in order is kept as
    it is, so sorting twice (the upload sorts, then the constructor) is
    sorting once. *)
Theorem constructor_sorts_stably (input : list DataPoint) (cfg : AnalysisConfig) :
  let sorted := data (constructor input cfg) in
  Permutation sorted input
  /\ StronglySorted tsLe sorted
  /\ (forall t, filter (fun p => (timestamp p =? t)%Z) sorted
                = filter (fun p => (timestamp p =? t)%Z) input)
  /\ (StronglySorted tsLe input -> sorted = input)
  /\ constructor sorted cfg = constructor input cfg.
Proof.
  cbn [data constructor].
  split; [apply sortBy_perm|]. split; [apply sortBy_sorted|].
  split; [intros t; apply sortBy_timestamp_stable|].
  split.
  - intros H. apply sortBy_sorted_id, tsLe_sorted_leb, H.
  - unfold constructor. f_equal.
    apply sortBy_sorted_id, tsLe_sorted_leb, sortBy_sorted.
Qed.

(** ** The range filter *)

(** X2. The range filter keeps a subsequence of the series.  With neither
    bound configured it keeps everything.  Otherwise a missing start counts
    as the epoch, so samples before 1970 are dropped, and an end at the
    epoch itself counts as no end. *)
Theorem filterDataByTimeRange_bounds (this : PoseidonAnalysisEngine) :
  let kept := filterDataByTimeRange this in
  let lower := match cfg_startTime (config this) with Some s => s | None => 0%Z end in
  Subseq kept (data this)
  /\ (cfg_startTime (config this) = None -> cfg_endTime (config this) = None ->
      kept = data this)
  /\ (forall e, cfg_endTime (config this) = Some e -> e <> 0%Z ->
        forall p, In p kept
                  <-> In p (data this) /\ (lower <= timestamp p <= e)%Z)
  /\ (cfg_endTime (config this) = Some 0%Z ->
        forall p, In p kept <-> In p (data this) /\ (lower <= timestamp p)%Z)
  /\ (forall s, cfg_startTime (config this) = Some s -> cfg_endTime (config this) = None ->
        forall p, In p kept <-> In p (data this) /\ (s <= timestamp p)%Z).
Proof.
  unfold filterDataByTimeRange. cbv zeta.
  destruct (cfg_startTime (config this)) as [s|] eqn:Es;
    destruct (cfg_endTime (config this)) as [e|] eqn:Ee; cbn [isSome negb andb].
  - split; [apply filter_Subseq|]. split; [discriminate|]. split; [|split].
    + intros e' [= <-] Hne p. rewrite filter_In.
      destruct (Z.eqb_spec e 0) as [->|_]; [congruence|].
      rewrite andb_true_iff, !Z.leb_le. tauto.
    + intros [= ->] p. rewrite filter_In. cbn [Z.eqb].
      rewrite andb_true_r, Z.leb_le. tauto.
    + discriminate.
  - split; [apply filter_Subseq|]. split; [discriminate|]. split; [discriminate|].
    split; [discriminate|].
    intros s' [= <-] _ p. rewrite filter_In, andb_true_r, Z.leb_le. tauto.
  - split; [apply filter_Subseq|]. split; [discriminate|]. split; [|split].
    + intros e' [= <-] Hne p. rewrite filter_In.
      destruct (Z.eqb_spec e 0) as [->|_]; [congruence|].
      rewrite andb_true_iff, !Z.leb_le. tauto.
    + intros [= ->] p. rewrite filter_In. cbn [Z.eqb].
      rewrite andb_true_r, Z.leb_le. tauto.
    + discriminate.
  - split; [|split; [reflexivity|split; [discriminate|split; discriminate]]].
    clear. induction (data this); now constructor.
Qed.

(** ** The smoother *)

Lemma at_mapi (f : DataPoint -> nat -> DataPoint) (l : list DataPoint) (i : nat) :
  (i < length l)%nat -> at_ (mapi f l) i = f (at_ l i) i.
Proof.
  intros Hi. unfold at_, mapi. apply nth_error_nth.
  rewrite mapi_from_nth_error. rewrite (nth_error_nth' l noPoint Hi). reflexivity.
Qed.

Lemma skipn_nth_cons {A : Type} (d : A) (l : list A) :
  forall a, (a < length l)%nat -> skipn a l = nth a l d :: skipn (S a) l.
Proof.
  induction l as [|x l IH]; intros a Ha; [simpl in Ha; lia|].
  destruct a as [|a]; [reflexivity|]. simpl in *. apply IH. lia.
Qed.

(** [a.slice(start, end)] element by element. *)
Lemma slice_seq {A : Type} (d : A) (l : list A) (a b : nat) :
  (b <= length l)%nat ->
  slice a b l = map (fun k => nth k l d) (seq a (b - a)).
Proof.
  unfold slice. intros Hb.
  remember (b - a)%nat as n eqn:En.
  assert (Hn : (n = 0 \/ a + n <= length l)%nat) by lia. clear En Hb.
  revert a Hn. induction n as [|n IH]; intros a Hn; [reflexivity|].
  rewrite (skipn_nth_cons d) by lia. cbn [firstn seq map]. f_equal.
  apply IH. lia.
Qed.

Lemma slice_In {A : Type} (d : A) (l : list A) (a b : nat) (x : A) :
  In x (slice a b l) ->
  exists j, (a <= j < b)%nat /\ (j < length l)%nat /\ nth j l d = x.
Proof.
  unfold slice. intros H. apply (In_nth _ _ d) in H. destruct H as [k [Hk Hx]].
  rewrite length_firstn, length_skipn in Hk.
  rewrite nth_firstn in Hx.
  destruct (k <? b - a)%nat eqn:E; [|apply Nat.ltb_ge in E; lia].
  apply Nat.ltb_lt in E. rewrite nth_skipn in Hx.
  exists (a + k)%nat. split; [lia|]. split; [lia | exact Hx].
Qed.

Lemma smoothData_length (input : list DataPoint) :
  length (smoothData input) = length input.
Proof. apply mapi_length. Qed.

(** The level the smoother gives to sample [index]. *)
Definition medianAt (input : list DataPoint) (index : nat) : Q :=
  let window :=
    sortBy Num.leb
      (map seaLevel
         (slice (Nat.max 0 (index - 2)) (Nat.min (length input) (index + 2 + 1)) input)) in
  nth (length window / 2) window 0%Q.

Lemma smoothData_at (input : list DataPoint) (i : nat) :
  (i < length input)%nat ->
  at_ (smoothData input) i = withLevel (at_ input i) (medianAt input i).
Proof. intros Hi. unfold smoothData. now rewrite at_mapi. Qed.

(** X3. The smoother changes levels only: the series keeps its length, its
    timestamps and its original indices, and the level it gives to a sample
    is the level of an input sample at most two places away. *)
Theorem smoothData_keeps_samples (input : list DataPoint) :
  length (smoothData input) = length input
  /\ map timestamp (smoothData input) = map timestamp input
  /\ map originalIndex (smoothData input) = map originalIndex input
  /\ forall i, (i < length input)%nat ->
       exists j, (j < length input)%nat /\ (i - 2 <= j <= i + 2)%nat
                 /\ seaLevel (at_ (smoothData input) i) = seaLevel (at_ input j).
Proof.
  split; [apply smoothData_length|].
  split; [|split].
  - unfold smoothData, mapi. rewrite mapi_from_map. cbn [withLevel timestamp].
    apply (mapi_from_const timestamp).
  - unfold smoothData, mapi. rewrite mapi_from_map. cbn [withLevel originalIndex].
    apply (mapi_from_const originalIndex).
  - intros i Hi. rewrite smoothData_at by assumption. cbn [withLevel seaLevel].
    unfold medianAt. cbv zeta.
    set (start := Nat.max 0 (i - 2)).
    set (stop := Nat.min (length input) (i + 2 + 1)).
    set (window := sortBy Num.leb (map seaLevel (slice start stop input))).
    assert (Hlen : length window = (stop - start)%nat).
    { unfold window. rewrite sortBy_length, length_map.
      rewrite (slice_seq noPoint) by (unfold stop; lia).
      now rewrite length_map, length_seq. }
    assert (Hin : In (nth (length window / 2) window 0%Q) window).
    { apply nth_In. rewrite Hlen.
      apply Nat.Div0.div_lt_upper_bound. unfold start, stop. lia. }
    apply (proj1 (sortBy_In Num.leb (map seaLevel (slice start stop input)) _)) in Hin.
    apply in_map_iff in Hin. destruct Hin as [p [Hp Hin]].
    apply (slice_In noPoint) in Hin. destruct Hin as [j [Hj [Hjl Hnth]]].
    exists j. split; [exact Hjl|]. split; [unfold start, stop in Hj; lia|].
    unfold at_. now rewrite Hnth.
Qed.

(** X4. On a series whose levels never decrease, the smoother leaves every
    sample with two neighbours on each side as it is. *)
Theorem smoothData_monotone_interior (input : list DataPoint) (i : nat) :
  (forall j k, (j <= k < length input)%nat ->
               (seaLevel (at_ input j) <= seaLevel (at_ input k))%Q) ->
  (2 <= i)%nat -> (i + 2 < length input)%nat ->
  at_ (smoothData input) i = at_ input i.
Proof.
  intros Hmono H2 Hi. rewrite smoothData_at by lia.
  assert (Hmed : medianAt input i = seaLevel (at_ input i)).
  { unfold medianAt. cbv zeta.
    replace (Nat.max 0 (i - 2)) with (i - 2)%nat by lia.
    replace (Nat.min (length input) (i + 2 + 1)) with (i + 3)%nat by lia.
    rewrite (slice_seq noPoint) by lia.
    replace (i + 3 - (i - 2))%nat with 5%nat by lia.
    cbn [seq map]. fold (at_ input (i - 2)). fold (at_ input (S (i - 2))).
    fold (at_ input (S (S (i - 2)))). fold (at_ input (S (S (S (i - 2))))).
    fold (at_ input (S (S (S (S (i - 2)))))).
    rewrite sortBy_sorted_id.
    - cbn [length Nat.div nth]. change (5 / 2)%nat with 2%nat. cbn [nth].
      replace (S (S (i - 2))) with i by lia. reflexivity.
    - repeat (constructor; [|repeat (constructor; try (apply leb_true, Hmono; lia))]).
      constructor. }
  rewrite Hmed. destruct (at_ input i). reflexivity.
Qed.

Definition rampSeries : list DataPoint :=
  [mkPoint 0 1 0; mkPoint 60000 2 1; mkPoint 120000 3 2; mkPoint 180000 4 3;
   mkPoint 240000 5 4; mkPoint 300000 6 5].

Lemma smoothData_monotone_interior_witness :
  at_ (smoothData rampSeries) 2 = at_ rampSeries 2.
Proof.
  apply smoothData_monotone_interior; [|lia | simpl; lia].
  intros j k Hjk. simpl in Hjk.
  assert (Hcases : (j <= k <= 5)%nat) by lia.
  destruct j as [|[|[|[|[|[|j]]]]]]; destruct k as [|[|[|[|[|[|k]]]]]];
    try lia; unfold Qle; simpl; lia.
Defined.

(** ** The gap filler: what it leaves behind *)

(** Two consecutive samples are at most two expected intervals apart. *)
Definition stepOK (a b : DataPoint) : Prop :=
  (timestamp b - timestamp a <= expectedInterval * 2)%Z.

Section GapGrid.

Lemma Subseq_refl {A : Type} (l : list A) : Subseq l l.
Proof. induction l; now constructor. Qed.

Lemma Subseq_skip_front {A : Type} (m s l : list A) : Subseq s l -> Subseq s (m ++ l).
Proof. intros H. induction m as [|x m IH]; [exact H | now constructor]. Qed.

Lemma fillGaps_spec_cons (a : DataPoint) (rest : list DataPoint) :
  exists tl, fillGaps_spec (a :: rest) = a :: tl.
Proof. destruct rest; eexists; reflexivity. Qed.

Lemma fillGaps_spec_pair (a b : DataPoint) (rest : list DataPoint) :
  fillGaps_spec (a :: b :: rest) = a :: interpolated a b ++ fillGaps_spec (b :: rest).
Proof. reflexivity. Qed.

Lemma fillGaps_spec_Subseq (input : list DataPoint) : Subseq input (fillGaps_spec input).
Proof.
  induction input as [|a rest IH]; [constructor|].
  destruct rest as [|b rest]; [apply Subseq_refl|].
  cbn [fillGaps_spec]. constructor. apply Subseq_skip_front. exact IH.
Qed.

Lemma fillGaps_spec_origin (input : list DataPoint) (p : DataPoint) :
  In p (fillGaps_spec input) -> In p input \/ originalIndex p = (-1)%Z.
Proof.
  induction input as [|a rest IH]; [intros []|].
  destruct rest as [|b rest]; [intros H; now left|].
  cbn [fillGaps_spec]. intros [<-|H]; [left; now left|].
  apply in_app_or in H. destruct H as [H|H].
  - right. unfold interpolated in H.
    destruct (timestamp b - timestamp a >? expectedInterval * 2)%Z; [|destruct H].
    apply in_map_iff in H. destruct H as [j [<- _]]. reflexivity.
  - destruct (IH H) as [Hin|Hm]; [left; now right | now right].
Qed.

Variable R : DataPoint -> DataPoint -> Prop.

(** A run [f s, f (s + 1), ...] put between [x] and [b]. *)
Lemma Sorted_insert_run (f : nat -> DataPoint) (b : DataPoint) (tl : list DataPoint) :
  Sorted R (b :: tl) ->
  forall k s x,
    (k = 0%nat -> R x b) ->
    ((0 < k)%nat -> R x (f s)) ->
    (forall j, (s <= j)%nat -> (S j < s + k)%nat -> R (f j) (f (S j))) ->
    ((0 < k)%nat -> R (f (s + k - 1)%nat) b) ->
    Sorted R (x :: map f (seq s k) ++ b :: tl).
Proof.
  intros Htl. induction k as [|k IH]; intros s x H0 Hfirst Hchain Hlast.
  - cbn [seq map app]. constructor; [exact Htl | constructor; now apply H0].
  - cbn [seq map app]. constructor; [|constructor; apply Hfirst; lia].
    apply IH.
    + intros ->. replace s with (s + 1 - 1)%nat at 1 by lia. apply Hlast. lia.
    + intros Hk. apply Hchain; lia.
    + intros j Hj1 Hj2. apply Hchain; lia.
    + intros Hk. replace (S s + k - 1)%nat with (s + S k - 1)%nat by lia.
      apply Hlast. lia.
Qed.

Hypothesis R_step :
  forall x y,
    (expectedInterval <= timestamp y - timestamp x < expectedInterval * 2)%Z -> R x y.

(** The samples put into a gap are one interval apart, and the last of them
    is at least one and less than two intervals before the end of the gap. *)
Lemma interpolated_Sorted (a b : DataPoint) (tl : list DataPoint) :
  Sorted R (b :: tl) ->
  (stepOK a b -> R a b) ->
  Sorted R (a :: interpolated a b ++ b :: tl).
Proof.
  intros Htl Hab. unfold interpolated.
  destruct (timestamp b - timestamp a >? expectedInterval * 2)%Z eqn:E.
  - apply Z.gtb_lt in E.
    destruct (interpolated_gap a b E) as [Hsteps _].
    set (steps := ((timestamp b - timestamp a) / expectedInterval - 1)%Z) in *.
    assert (Hmod := Z.mod_pos_bound (timestamp b - timestamp a) expectedInterval eq_refl).
    assert (Hdiv := Z.div_mod (timestamp b - timestamp a) expectedInterval).
    unfold expectedInterval in *.
    apply Sorted_insert_run; [exact Htl | lia | | |].
    + intros _. apply R_step. cbn [timestamp]. unfold expectedInterval. lia.
    + intros j Hj1 Hj2. apply R_step. cbn [timestamp]. unfold expectedInterval. lia.
    + intros _. apply R_step. cbn [timestamp]. unfold expectedInterval.
      replace (Z.of_nat (1 + Z.to_nat steps - 1)) with steps by lia.
      unfold steps. lia.
  - cbn [app]. constructor; [exact Htl|]. constructor. apply Hab.
    unfold stepOK. destruct (Z.gtb_spec (timestamp b - timestamp a) (expectedInterval * 2));
      [discriminate | lia].
Qed.

Lemma fillGaps_spec_Sorted (input : list DataPoint) :
  Sorted (fun a b => stepOK a b -> R a b) input ->
  Sorted R (fillGaps_spec input).
Proof.
  induction input as [|a rest IH]; [constructor|].
  intros H. inversion H as [|? ? Hrest Hhd]; subst.
  destruct rest as [|b rest]; [repeat constructor|].
  rewrite fillGaps_spec_pair.
  destruct (fillGaps_spec_cons b rest) as [tl Etl].
  specialize (IH Hrest). rewrite Etl in *.
  apply interpolated_Sorted; [exact IH|].
  inversion Hhd; subst. assumption.
Qed.

End GapGrid.

Lemma Sorted_weaken {A : Type} (R R' : A -> A -> Prop) (l : list A) :
  (forall a b, R a b -> R' a b) -> Sorted R l -> Sorted R' l.
Proof.
  intros HR. induction 1 as [|a l Hl IH Hhd]; constructor; [exact IH|].
  destruct Hhd; constructor. now apply HR.
Qed.

Lemma Sorted_total {A : Type} (R : A -> A -> Prop) (l : list A) :
  (forall a b, R a b) -> Sorted R l.
Proof.
  intros HR. induction l as [|a l IH]; constructor; [exact IH|].
  destruct l; constructor. apply HR.
Qed.

Lemma fillGaps_spec_fixed (input : list DataPoint) :
  Sorted stepOK input -> fillGaps_spec input = input.
Proof.
  induction 1 as [|a rest Hrest IH Hhd]; [reflexivity|].
  destruct rest as [|b rest]; [reflexivity|].
  rewrite fillGaps_spec_pair. inversion Hhd; subst.
  rewrite interpolated_no_gap by assumption.
  cbn [app]. now rewrite IH.
Qed.

Lemma fillGaps_grid (input : list DataPoint) : Sorted stepOK (fillGaps input).
Proof.
  rewrite fillGaps_is_spec. apply fillGaps_spec_Sorted.
  - intros x y H. unfold stepOK. lia.
  - apply Sorted_total. intros a b H. exact H.
Qed.

Lemma fillGaps_ordered (input : list DataPoint) :
  Sorted tsLe input -> Sorted tsLe (fillGaps input).
Proof.
  intros Hord. rewrite fillGaps_is_spec. apply fillGaps_spec_Sorted.
  - intros x y H. unfold tsLe, expectedInterval in *. lia.
  - eapply Sorted_weaken; [|exact Hord]. intros a b H _. exact H.
Qed.

(** X5. Gap filling keeps every input sample, in order, and adds only
    samples marked [-1].  Whatever the input, no two consecutive samples of
    the result are more than two intervals apart, so filling a second time
    changes nothing; and a time-ordered input gives a time-ordered result. *)
Theorem fillGaps_regular_grid (input : list DataPoint) :
  Subseq input (fillGaps input)
  /\ (forall p, In p (fillGaps input) -> In p input \/ originalIndex p = (-1)%Z)
  /\ Sorted stepOK (fillGaps input)
  /\ (Sorted tsLe input -> Sorted tsLe (fillGaps input))
  /\ (Sorted stepOK input -> fillGaps input = input)
  /\ fillGaps (fillGaps input) = fillGaps input.
Proof.
  assert (Hgrid := fillGaps_grid input).
  split; [rewrite fillGaps_is_spec; apply fillGaps_spec_Subseq|].
  split; [rewrite fillGaps_is_spec; apply fillGaps_spec_origin|].
  split; [exact Hgrid|]. split; [apply fillGaps_ordered|]. split.
  - rewrite fillGaps_is_spec. apply fillGaps_spec_fixed.
  - rewrite (fillGaps_is_spec (fillGaps input)). now apply fillGaps_spec_fixed.
Qed.

(** ** The decomposition: order and alignment *)

Lemma StronglySorted_filter {A : Type} (R : A -> A -> Prop) (p : A -> bool) (l : list A) :
  StronglySorted R l -> StronglySorted R (filter p l).
Proof.
  induction 1 as [|a l Hl IH Ha]; [constructor|].
  cbn [filter]. destruct (p a); [|exact IH].
  constructor; [exact IH|].
  rewrite Forall_forall in *. intros x Hx. apply filter_In in Hx. now apply Ha.
Qed.

Lemma filterDataByTimeRange_sorted (this : PoseidonAnalysisEngine) :
  StronglySorted tsLe (data this) -> StronglySorted tsLe (filterDataByTimeRange this).
Proof.
  intros H. unfold filterDataByTimeRange. cbv zeta.
  destruct (negb (isSome (cfg_startTime (config this)))
            && negb (isSome (cfg_endTime (config this))));
    [exact H | now apply StronglySorted_filter].
Qed.

Lemma Sorted_tsLe_timestamps (l l' : list DataPoint) :
  map timestamp l = map timestamp l' -> Sorted tsLe l -> Sorted tsLe l'.
Proof.
  revert l'. induction l as [|a l IH]; intros l' E H.
  - destruct l'; [constructor | discriminate].
  - destruct l' as [|a' l']; [discriminate|].
    injection E as Ea El. inversion H as [|? ? Hl Hhd]; subst.
    constructor; [now apply IH|].
    destruct l as [|b l]; destruct l' as [|b' l']; try discriminate; constructor.
    injection El as Eb _. inversion Hhd; subst. unfold tsLe in *. lia.
Qed.

Section Alignment.
Variable M : MathLib.

(** A stage that only replaces levels. *)
Lemma relevel_timestamps (g : DataPoint -> nat -> Q) (l : list DataPoint) :
  map timestamp (mapi (fun p i => withLevel p (g p i)) l) = map timestamp l
  /\ map originalIndex (mapi (fun p i => withLevel p (g p i)) l) = map originalIndex l.
Proof.
  unfold mapi. rewrite !mapi_from_map. cbn [withLevel timestamp originalIndex].
  split; [apply (mapi_from_const timestamp) | apply (mapi_from_const originalIndex)].
Qed.

Lemma extractTidalComponent_timestamps (cfg : AnalysisConfig) (l : list DataPoint) :
  map timestamp (extractTidalComponent M cfg l) = map timestamp l
  /\ map originalIndex (extractTidalComponent M cfg l) = map originalIndex l.
Proof.
  unfold extractTidalComponent.
  destruct (tideRemovalMethod cfg); [unfold harmonicTidalFit | unfold lowpassTidalFilter];
    cbv zeta; apply relevel_timestamps.
Qed.

Lemma detrendData_timestamps (orig tid : list DataPoint) :
  map timestamp (detrendData orig tid) = map timestamp orig
  /\ map originalIndex (detrendData orig tid) = map originalIndex orig.
Proof. unfold detrendData. apply relevel_timestamps. Qed.

End Alignment.

(** X6. The decomposition of an engine built by the constructor: the
    original series is in time order with no two consecutive samples more
    than two intervals apart, and the tidal, detrended and residual series
    carry, index by index, the timestamps and the original indices of the
    original series; detrended and residual are the same series. *)
Theorem decomposition_aligned (M : MathLib) (input : list DataPoint) (cfg : AnalysisConfig) :
  let pd := fst (runFullAnalysis M (constructor input cfg)) in
  Sorted tsLe (original pd)
  /\ Sorted stepOK (original pd)
  /\ map timestamp (tidal pd) = map timestamp (original pd)
  /\ map timestamp (detrended pd) = map timestamp (original pd)
  /\ map originalIndex (tidal pd) = map originalIndex (original pd)
  /\ map originalIndex (detrended pd) = map originalIndex (original pd)
  /\ residuals pd = detrended pd.
Proof.
  cbn [fst runFullAnalysis decompose original tidal detrended residuals].
  set (this := constructor input cfg).
  split; [|split; [apply fillGaps_grid|]].
  - apply fillGaps_ordered.
    apply (@Sorted_tsLe_timestamps (filterDataByTimeRange this));
      [symmetry; unfold smoothData; cbv zeta; apply relevel_timestamps|].
    apply StronglySorted_Sorted, filterDataByTimeRange_sorted.
    apply sortBy_sorted.
  - split; [apply extractTidalComponent_timestamps|].
    split; [apply detrendData_timestamps|].
    split; [apply extractTidalComponent_timestamps|].
    split; [apply detrendData_timestamps | reflexivity].
Qed.

(** ** The low-pass tidal filter *)

(** The samples [lowpassTidalFilter] averages for index [i]: those at most
    240 places away, clipped to the series. *)
Definition lowpassWindow (input : list DataPoint) (i : nat) : list DataPoint :=
  slice (Nat.max 0 (i - 240)) (Nat.min (length input) (i + 240 + 1)) input.

(** [window.reduce((acc, p) => acc + p.seaLevel, 0) / window.length]. *)
Definition windowMean (window : list DataPoint) : Q :=
  (fold_left (fun acc p => acc + seaLevel p) window 0 / Num.ofNat (length window))%Q.

Definition tideAt (input : list DataPoint) (i : nat) : Q :=
  seaLevel (at_ (lowpassTidalFilter input) i).

Lemma lowpass_at (input : list DataPoint) (i : nat) :
  (i < length input)%nat ->
  at_ (lowpassTidalFilter input) i
  = withLevel (at_ input i) (windowMean (lowpassWindow input i)).
Proof. intros Hi. unfold lowpassTidalFilter. cbv zeta. now rewrite at_mapi. Qed.

Lemma lowpassWindow_length (input : list DataPoint) (i : nat) :
  (i < length input)%nat ->
  length (lowpassWindow input i) = (Nat.min (length input) (i + 241) - (i - 240))%nat.
Proof.
  intros Hi. unfold lowpassWindow.
  rewrite (slice_seq noPoint) by lia.
  rewrite length_map, length_seq. lia.
Qed.

Lemma fold_levels (window : list DataPoint) :
  forall acc, fold_left (fun acc p => acc + seaLevel p)%Q window acc
              = fold_left Qplus (map seaLevel window) acc.
Proof. induction window as [|p window IH]; intros acc; [reflexivity | apply IH]. Qed.

(** The mean of a window depends on its levels only. *)
Lemma windowMean_levels (w w' : list DataPoint) :
  map seaLevel w = map seaLevel w' -> windowMean w = windowMean w'.
Proof.
  intros E. unfold windowMean. rewrite !fold_levels, E.
  now rewrite <- (length_map seaLevel w), <- (length_map seaLevel w'), E.
Qed.

(** X7. The low-pass tide at index [i] is the mean of the samples at most
    240 places from [i], clipped to the series, summed in series order: a
    window of at least one and at most 481 samples.  So the tide at [i] is
    the same for every series of the same length that has the same levels
    within 240 places of [i]; and on a series of at most 241 samples every
    window is the whole series, so the tide is the same at every index. *)
Theorem lowpass_reads_window (input other : list DataPoint) (i : nat) :
  (i < length input)%nat ->
  tideAt input i = windowMean (lowpassWindow input i)
  /\ length (lowpassWindow input i) = (Nat.min (length input) (i + 241) - (i - 240))%nat
  /\ (1 <= length (lowpassWindow input i) <= 481)%nat
  /\ (length other = length input ->
      (forall j, (i - 240 <= j <= i + 240)%nat -> (j < length input)%nat ->
                 seaLevel (at_ other j) = seaLevel (at_ input j)) ->
      tideAt other i = tideAt input i)
  /\ ((length input <= 241)%nat ->
      lowpassWindow input i = input
      /\ forall k, (k < length input)%nat -> tideAt input k = tideAt input i).
Proof.
  intros Hi.
  assert (Hat : forall l k, (k < length l)%nat -> tideAt l k = windowMean (lowpassWindow l k)).
  { intros l k Hk. unfold tideAt. now rewrite lowpass_at. }
  assert (Hlen := lowpassWindow_length input Hi).
  split; [now apply Hat|]. split; [exact Hlen|]. split; [lia|]. split.
  - intros Hsame Hlevels. rewrite !Hat by lia.
    apply windowMean_levels. unfold lowpassWindow. rewrite Hsame.
    rewrite !(slice_seq noPoint) by lia. rewrite !map_map.
    apply map_ext_in. intros j Hj. apply in_seq in Hj.
    apply Hlevels; lia.
  - intros Hshort.
    assert (Hall : forall k, (k < length input)%nat -> lowpassWindow input k = input).
    { intros k Hk. unfold lowpassWindow, slice.
      replace (Nat.max 0 (k - 240)) with 0%nat by lia.
      replace (Nat.min (length input) (k + 240 + 1)) with (length input) by lia.
      rewrite Nat.sub_0_r. cbn [skipn]. apply firstn_all. }
    split; [now apply Hall|].
    intros k Hk. rewrite !Hat by assumption. now rewrite !Hall.
Qed.

(** The levels of [peakSeries] under other timestamps and indices. *)
Definition peakSeriesLater : list DataPoint :=
  [mkPoint 5000 0 7; mkPoint 65000 (5 # 100) 8; mkPoint 125000 0 9].

Lemma lowpass_reads_window_witness :
  (1 < length peakSeries)%nat
  /\ tideAt peakSeries 1 = windowMean (lowpassWindow peakSeries 1)
  /\ length (lowpassWindow peakSeries 1) = (Nat.min (length peakSeries) (1 + 241) - (1 - 240))%nat
  /\ (1 <= length (lowpassWindow peakSeries 1) <= 481)%nat
  /\ (length peakSeriesLater = length peakSeries ->
      (forall j, (1 - 240 <= j <= 1 + 240)%nat -> (j < length peakSeries)%nat ->
                 seaLevel (at_ peakSeriesLater j) = seaLevel (at_ peakSeries j)) ->
      tideAt peakSeriesLater 1 = tideAt peakSeries 1)
  /\ ((length peakSeries <= 241)%nat ->
      lowpassWindow peakSeries 1 = peakSeries
      /\ forall k, (k < length peakSeries)%nat -> tideAt peakSeries k = tideAt peakSeries 1).
Proof.
  split; [simpl; lia|].
  apply (@lowpass_reads_window peakSeries peakSeriesLater 1). simpl. lia.
Defined.

(** ** The tidal-phase detector: troughs, and what it does not see *)



Lemma detectTidalPhases_In (input tidal : list DataPoint) (e : DetectedEvent) :
  In e (detectTidalPhases input tidal)
  <-> exists i, (1 <= i)%nat /\ (i + 1 < length tidal)%nat /\ In e (tidalPhasesAt tidal i).
Proof.
  unfold detectTidalPhases. rewrite in_flat_map. split.
  - intros [i [Hi He]]. apply in_seq in Hi. exists i. repeat split; [lia | lia | exact He].
  - intros [i [H1 [H2 He]]]. exists i. split; [apply in_seq; lia | exact He].
Qed.





Lemma flat_map_nil {A B : Type} (f : A -> list B) (l : list A) :
  (forall x, In x l -> f x = []) -> flat_map f l = [].
Proof.
  induction l as [|x l IH]; intros H; [reflexivity|].
  cbn [flat_map]. rewrite (H x (or_introl eq_refl)). apply IH.
  intros y Hy. apply H. now right.
Qed.

(** X9. The detector looks at the slope into each sample but the last: when
    every step of the tidal series except the last one is within 0.02 m,
    nothing is reported, however large the last step is.  A tidal series
    of fewer than three samples yields no event. *)
Theorem tidal_phases_blind_to_last_step (input tidal : list DataPoint) :
  (forall i, (i + 2 < length tidal)%nat ->
             (Qabs (seaLevel (at_ tidal (i + 1)) - seaLevel (at_ tidal i)) <= 2 # 100)%Q) ->
  detectTidalPhases input tidal = [].
Proof.
  intros Hquiet. unfold detectTidalPhases. apply flat_map_nil.
  intros i Hi. apply in_seq in Hi.
  assert (Hs : (Qabs (seaLevel (at_ tidal i) - seaLevel (at_ tidal (i - 1))) <= 2 # 100)%Q).
  { specialize (Hquiet (i - 1)%nat). replace (i - 1 + 1)%nat with i in Hquiet by lia.
    apply Hquiet. lia. }
  unfold tidalPhasesAt. cbv zeta.
  set (prevSlope := (seaLevel (at_ tidal i) - seaLevel (at_ tidal (i - 1)))%Q) in *.
  apply Qabs_Qle_condition in Hs. destruct Hs as [Hs1 Hs2].
  assert (E1 : Num.gtb prevSlope tideThreshold = false) by (apply gtb_false; exact Hs2).
  assert (E2 : Num.ltb prevSlope (- tideThreshold) = false) by (apply ltb_false; exact Hs1).
  assert (E3 : Num.gtb (Qabs prevSlope) tideThreshold = false).
  { apply gtb_false. apply Qabs_Qle_condition. split; assumption. }
  rewrite E1, E2, E3. reflexivity.
Qed.

Lemma tidal_phases_blind_to_last_step_witness :
  detectTidalPhases [] [mkPoint 0 0 0; mkPoint 60000 0 1; mkPoint 120000 0 2;
                        mkPoint 180000 5 3] = []
  /\ detectTidalPhases [] [mkPoint 0 0 0; mkPoint 60000 5 1] = [].
Proof.
  split; apply tidal_phases_blind_to_last_step; intros i Hi; simpl in Hi.
  - destruct i as [|[|i]]; [vm_compute; discriminate | vm_compute; discriminate | lia].
  - lia.
Defined.

(** ** The storm-surge detector: what every event satisfies *)

Lemma fold_left_invariant {S I : Type} (Inv : S -> Prop) (step : S -> I -> S) (l : list I) :
  forall st,
    Inv st ->
    (forall st i, In i l -> Inv st -> Inv (step st i)) ->
    Inv (fold_left step l st).
Proof.
  induction l as [|x l IH]; intros st H0 Hstep; [exact H0|].
  cbn [fold_left]. apply IH.
  - apply Hstep; [now left | exact H0].
  - intros st' i Hi. apply Hstep. now right.
Qed.

(** [a] is the magnitude of a sample of [r] above the surge threshold, and
    [t] is the timestamp of that sample. *)
Definition surgePeak (r : list DataPoint) (a : Q) (t : option Z) : Prop :=
  exists j, (j < length r)%nat
            /\ a = Qabs (seaLevel (at_ r j))
            /\ t = Some (timestamp (at_ r j))
            /\ (surgeThreshold < a)%Q.

Definition surgeEventOK (r : list DataPoint) (e : DetectedEvent) : Prop :=
  type e = StormSurge
  /\ confidence e <> Low
  /\ exists a d,
       amplitude e = Some a
       /\ surgePeak r a (peak e)
       /\ (confidence e = High <-> (surgeThreshold * 2 < a)%Q)
       /\ In ("duration_minutes"%string, PNum (Num.ofNat d)) (properties e)
       /\ (60 <= d)%nat
       /\ In ("peak_amplitude"%string, PNum a) (properties e).

Definition surgeInv (r : list DataPoint) (st : SurgeState) : Prop :=
  Forall (surgeEventOK r) (surgeEvents st)
  /\ (forall s, surgeStart st = Some s -> surgePeak r (maxSurge st) (maxSurgeTime st)).

Lemma surge_step_inv (r : list DataPoint) (st : SurgeState) (i : nat) :
  (i < length r)%nat -> surgeInv r st -> surgeInv r (surge_step r st i).
Proof.
  intros Hi [Hev Hpk]. unfold surge_step.
  destruct (Num.gtb (Qabs (seaLevel (at_ r i))) surgeThreshold) eqn:Eover.
  - apply gtb_true in Eover.
    assert (Hnew : surgePeak r (Qabs (seaLevel (at_ r i))) (Some (timestamp (at_ r i))))
      by (exists i; repeat split; assumption).
    destruct (surgeStart st) as [s|] eqn:Es.
    + destruct (Num.gtb (Qabs (seaLevel (at_ r i))) (maxSurge st)).
      * split; [exact Hev | intros s' _; exact Hnew].
      * split; [exact Hev | rewrite Es; exact Hpk].
    + split; [exact Hev | intros s' _; exact Hnew].
  - destruct (surgeStart st) as [s|] eqn:Es.
    + split; [|discriminate]. cbn [surgeEvents].
      destruct (sustainedDuration <=? i - s)%nat eqn:Ed; [|exact Hev].
      apply Forall_app. split; [exact Hev|]. constructor; [|constructor].
      apply Nat.leb_le in Ed. unfold sustainedDuration in Ed.
      specialize (Hpk s eq_refl).
      split; [reflexivity|]. split.
      { cbn [confidence]. destruct (Num.gtb (maxSurge st) (surgeThreshold * 2)); discriminate. }
      exists (maxSurge st), (i - s)%nat. cbn [amplitude peak confidence properties].
      split; [reflexivity|]. split; [exact Hpk|]. split; [|split; [|split]].
      * destruct (Num.gtb (maxSurge st) (surgeThreshold * 2)) eqn:Eh.
        -- apply gtb_true in Eh. tauto.
        -- apply gtb_false in Eh. split; [discriminate|]. intros Hlt.
           exfalso. apply (Qlt_not_le _ _ Hlt Eh).
      * right. now left.
      * exact Ed.
      * now left.
    + split; [exact Hev | rewrite Es; exact Hpk].
Qed.

(** X10. Every event of the storm-surge detector is a "Storm Surge" whose
    amplitude is the magnitude of a sample above 0.15 m, whose [peak] is
    the timestamp of that sample, whose [duration_minutes] is at least 60,
    and whose confidence is High exactly when the amplitude exceeds 0.30 m,
    Medium otherwise. *)
Theorem storm_surge_events_sound (residuals : list DataPoint) :
  Forall (surgeEventOK residuals) (detectStormSurges residuals).
Proof.
  unfold detectStormSurges.
  apply (@fold_left_invariant _ _ (surgeInv residuals) (surge_step residuals)).
  - split; [constructor | discriminate].
  - intros st i Hi Hinv. apply in_seq in Hi. apply surge_step_inv; [lia | exact Hinv].
Qed.

(** ** The data-artifact detector *)

Definition changeAt (input : list DataPoint) (i : nat) : Q :=
  Qabs (seaLevel (at_ input i) - seaLevel (at_ input (i - 1))).

Definition spikeEvent (input : list DataPoint) (i : nat) : DetectedEvent :=
  mkEvent (IdIndexed "spike" (Z.of_nat i)) Spike (timestamp (at_ input i)) None High
    (Some (changeAt input i)) None None
    [("magnitude", PNum (changeAt input i));
     ("previous_level", PNum (seaLevel (at_ input (i - 1))));
     ("current_level", PNum (seaLevel (at_ input i)))]%string.

(** The Spike events, as the first loop pushes them. *)
Definition spikeEvents (input : list DataPoint) : list DetectedEvent :=
  map (spikeEvent input)
    (filter (fun i => Num.gtb (changeAt input i) spikeThreshold) (seq 1 (length input - 1))).

Definition flatlineOK (e : DetectedEvent) : Prop :=
  type e = Flatline /\ confidence e = High
  /\ exists d, (30 <= d)%nat
               /\ In ("duration_minutes"%string, PNum (Num.ofNat d)) (properties e).

Lemma flat_map_filter {A B : Type} (p : A -> bool) (f : A -> B) (l : list A) :
  flat_map (fun x => if p x then [f x] else []) l = map f (filter p l).
Proof.
  induction l as [|x l IH]; [reflexivity|].
  cbn [flat_map filter]. destruct (p x); cbn [map app]; now rewrite IH.
Qed.

(** The second loop only appends Flatline events. *)
Lemma flatline_fold_appends (input : list DataPoint) (l : list nat) :
  forall st, exists extra,
    flatEvents (fold_left (flatline_step input) l st) = flatEvents st ++ extra
    /\ Forall flatlineOK extra.
Proof.
  induction l as [|i l IH]; intros st.
  - exists []. split; [now rewrite app_nil_r | constructor].
  - cbn [fold_left]. destruct (IH (flatline_step input st i)) as [extra [E HF]].
    rewrite E. unfold flatline_step.
    destruct (Num.leb _ flatlineThreshold).
    + destruct (flatlineStart st); exists extra; split; (reflexivity || exact HF).
    + destruct (flatlineStart st) as [s|]; [|exists extra; split; [reflexivity | exact HF]].
      cbn [flatEvents].
      destruct (minFlatlineDuration <=? i - s)%nat eqn:Ed;
        [|exists extra; split; [reflexivity | exact HF]].
      eexists. split; [rewrite <- app_assoc; reflexivity|].
      constructor; [|exact HF].
      split; [reflexivity|]. split; [reflexivity|].
      exists (i - s)%nat. apply Nat.leb_le in Ed. split; [exact Ed|].
      right. now left.
Qed.

(** While the level keeps still, the second loop pushes nothing. *)
Lemma flatline_fold_still (input : list DataPoint) (l : list nat) :
  (forall i, In i l -> (changeAt input i <= flatlineThreshold)%Q) ->
  forall st, flatEvents (fold_left (flatline_step input) l st) = flatEvents st.
Proof.
  induction l as [|i l IH]; intros Hstill st; [reflexivity|].
  cbn [fold_left]. rewrite IH by (intros j Hj; apply Hstill; now right).
  unfold flatline_step.
  assert (E : Num.leb (Qabs (seaLevel (at_ input i) - seaLevel (at_ input (i - 1))))
                flatlineThreshold = true)
    by (apply leb_true, Hstill; now left).
  rewrite E. destruct (flatlineStart st); reflexivity.
Qed.

(** X11. The data-artifact detector returns first the Spike events, one for
    each sample that differs from the sample before it by more than 0.5 m,
    in order, each of High confidence, and after them only High-confidence
    Flatline events of at least 30 minutes. *)
Theorem artifacts_spikes_then_flatlines (input : list DataPoint) :
  exists flatlines,
    detectDataArtifacts input = spikeEvents input ++ flatlines
    /\ Forall flatlineOK flatlines
    /\ (forall i, (1 <= i < length input)%nat ->
                  (spikeThreshold < changeAt input i)%Q ->
                  In (spikeEvent input i) (detectDataArtifacts input))
    /\ (forall e, In e (spikeEvents input) -> type e = Spike /\ confidence e = High).
Proof.
  unfold detectDataArtifacts. cbv zeta.
  rewrite (flat_map_filter (fun i => Num.gtb (changeAt input i) spikeThreshold)
             (spikeEvent input)).
  fold (spikeEvents input).
  destruct (flatline_fold_appends input (seq 1 (length input - 1))
              (mkFlat None None (spikeEvents input))) as [extra [E HF]].
  exists extra. rewrite E. cbn [flatEvents].
  split; [reflexivity|]. split; [exact HF|]. split.
  - intros i Hi Hjump. apply in_or_app. left. unfold spikeEvents.
    apply in_map. apply filter_In. split; [apply in_seq; lia | now apply gtb_true].
  - intros e He. unfold spikeEvents in He. apply in_map_iff in He.
    destruct He as [i [<- _]]. split; reflexivity.
Qed.

(** X12. A series whose consecutive samples never differ by more than
    0.001 m yields no artifact at all: a flatline is reported only once a
    later sample moves, so one that lasts to the end of the series is not. *)
Theorem flat_series_not_reported (input : list DataPoint) :
  (forall i, (1 <= i < length input)%nat -> (changeAt input i <= flatlineThreshold)%Q) ->
  detectDataArtifacts input = [].
Proof.
  intros Hstill. unfold detectDataArtifacts. cbv zeta.
  rewrite flatline_fold_still.
  - cbn [flatEvents]. apply flat_map_nil. intros i Hi. apply in_seq in Hi.
    assert (E : Num.gtb (Qabs (seaLevel (at_ input i) - seaLevel (at_ input (i - 1))))
                  spikeThreshold = false).
    { apply gtb_false. eapply Qle_trans; [apply Hstill; lia | discriminate]. }
    now rewrite E.
  - intros i Hi. apply in_seq in Hi. apply Hstill. lia.
Qed.

Lemma flat_series_not_reported_witness : detectDataArtifacts (constantRun 0 3 100) = [].
Proof.
  apply flat_series_not_reported. intros i Hi.
  unfold changeAt, at_, constantRun.
  rewrite !(nth_indep _ noPoint (mkPoint (0 + Z.of_nat 0 * 60000) 3 (-1)))
    by (rewrite length_map, length_seq; unfold constantRun in Hi;
        rewrite length_map, length_seq in Hi; lia).
  rewrite !(map_nth (fun i => mkPoint (0 + Z.of_nat i * 60000) 3 (-1))).
  cbn [seaLevel]. discriminate.
Defined.

(** ** Energy bursts and the seiche detector *)

Lemma mapi_from_In_elem {A B : Type} (g : A -> nat -> B) (l : list A) (e : B) :
  forall i, In e (mapi_from g i l) -> exists x k, In x l /\ e = g x k.
Proof.
  induction l as [|x l IH]; intros i; cbn [mapi_from In]; [tauto|].
  intros [<-|H]; [exists x, i; split; [now left | reflexivity]|].
  destruct (IH (S i) H) as [y [k [Hy E]]]. exists y, k. split; [now right | exact E].
Qed.

Section Bursts.
Variable M : MathLib.

(** The loop of [findEnergyBursts] has examined the windows that start at
    multiples of the stride; every burst it holds is such a window. *)
Definition burstOK (input : list DataPoint) (windowSize : nat) (b : Z * Z) : Prop :=
  exists k,
    (k * (windowSize / 2) + windowSize < length input)%nat
    /\ b = (timestamp (at_ input (k * (windowSize / 2))),
            timestamp (at_ input (k * (windowSize / 2) + windowSize - 1))).

Lemma nth_map_seq_from {B : Type} (f : nat -> B) (s n k : nat) (d : B) :
  (k < n)%nat -> nth k (map f (seq s n)) d = f (s + k)%nat.
Proof.
  intros Hk. rewrite nth_indep with (d' := f 0%nat) by (now rewrite length_map, length_seq).
  rewrite map_nth, seq_nth by assumption. reflexivity.
Qed.

Lemma slice_window_ends (input : list DataPoint) (i w : nat) :
  (0 < w)%nat -> (i + w <= length input)%nat ->
  at_ (slice i (i + w) input) 0 = at_ input i
  /\ at_ (slice i (i + w) input) (length (slice i (i + w) input) - 1)
     = at_ input (i + w - 1).
Proof.
  intros Hw Hi. rewrite (slice_seq noPoint) by lia.
  replace (i + w - i)%nat with w by lia.
  rewrite length_map, length_seq. unfold at_.
  rewrite !nth_map_seq_from by lia. rewrite Nat.add_0_r.
  replace (i + (w - 1))%nat with (i + w - 1)%nat by lia. split; reflexivity.
Qed.

Lemma findEnergyBursts_loop_spec (input : list DataPoint) (frequency : Q) (w : nat) :
  (2 <= w)%nat ->
  forall fuel k bursts,
    Forall (burstOK input w) bursts ->
    Forall (burstOK input w)
      (findEnergyBursts_loop M fuel input frequency w (k * (w / 2)) bursts)
    /\ ((length input - k * (w / 2) <= fuel)%nat ->
        forall extra,
          findEnergyBursts_loop M (fuel + extra) input frequency w (k * (w / 2)) bursts
          = findEnergyBursts_loop M fuel input frequency w (k * (w / 2)) bursts).
Proof.
  intros Hw.
  assert (Hstride : (1 <= w / 2)%nat) by (apply Nat.div_le_lower_bound; lia).
  induction fuel as [|fuel IH]; intros k bursts Hb.
  - split; [exact Hb|]. intros Hfuel extra.
    destruct extra as [|extra]; [reflexivity|]. cbn [Nat.add findEnergyBursts_loop].
    destruct (Z.ltb_spec (Z.of_nat (k * (w / 2))) (Z.of_nat (length input) - Z.of_nat w));
      [lia | reflexivity].
  - cbn [Nat.add findEnergyBursts_loop].
    destruct (Z.ltb_spec (Z.of_nat (k * (w / 2))) (Z.of_nat (length input) - Z.of_nat w))
      as [Hlt|Hge]; [|split; [exact Hb | reflexivity]].
    replace (k * (w / 2) + w / 2)%nat with (S k * (w / 2))%nat by lia.
    set (bursts' := if Num.gtb _ _ then _ else bursts).
    assert (Hb' : Forall (burstOK input w) bursts').
    { unfold bursts'. destruct (Num.gtb _ _); [|exact Hb].
      apply Forall_app. split; [exact Hb|]. constructor; [|constructor].
      exists k. split; [lia|].
      destruct (@slice_window_ends input (k * (w / 2)) w) as [E1 E2]; [lia | lia|].
      now rewrite E1, E2. }
    destruct (IH (S k) bursts' Hb') as [H1 H2].
    split; [exact H1|]. intros Hfuel extra. apply H2. lia.
Qed.

End Bursts.

(** X13. Energy bursts.  Each burst returned by [findEnergyBursts] is a
    window of [max(10, floor(2 * period))] samples that starts at a multiple
    of half that size and ends before the last sample; the loop stops by its
    own test (more fuel gives the same result); and a series of at most 10
    samples has no burst. *)
Theorem energy_bursts_are_windows (M : MathLib) (input : list DataPoint)
    (frequency period : Q) :
  let w := Z.to_nat (Z.max 10 (Qfloor (period * 2))) in
  Forall (burstOK input w) (findEnergyBursts M input frequency period)
  /\ (10 <= w)%nat
  /\ (forall extra,
        findEnergyBursts_loop M (length input + extra) input frequency w 0 []
        = findEnergyBursts M input frequency period)
  /\ ((length input <= 10)%nat -> findEnergyBursts M input frequency period = []).
Proof.
  intros w. assert (Hw : (10 <= w)%nat) by (unfold w; lia).
  unfold findEnergyBursts. fold w.
  destruct (@findEnergyBursts_loop_spec M input frequency w ltac:(lia)
              (length input) 0%nat [] (Forall_nil _)) as [H1 H2].
  cbn [Nat.mul] in H1, H2.
  split; [exact H1|]. split; [exact Hw|]. split.
  - intros extra. apply H2. lia.
  - intros Hshort. destruct (length input) as [|n] eqn:En; [reflexivity|].
    cbn [findEnergyBursts_loop]. rewrite En.
    destruct (Z.ltb_spec (Z.of_nat 0) (Z.of_nat (S n) - Z.of_nat w)); [lia | reflexivity].
Qed.

Section Seiche.
Variable M : MathLib.

Definition seicheEventOK (residuals : list DataPoint) (e : DetectedEvent) : Prop :=
  type e = Seiche
  /\ confidence e <> Low
  /\ exists f,
       In f (frequencies (computeSpectralAnalysis M residuals))
       /\ (1 / 30 <= f <= 1 / 5)%Q
       /\ period e = Some (1 / f)%Q
       /\ (5 <= 1 / f <= 30)%Q
       /\ exists b, In b (findEnergyBursts M residuals f (1 / f))
                    /\ startTime e = fst b /\ endTime e = Some (snd b).

Lemma seiche_band_period (f : Q) :
  (1 / 30 <= f <= 1 / 5)%Q -> (5 <= 1 / f <= 30)%Q.
Proof.
  intros [H1 H2].
  assert (Hpos : (0 < f)%Q) by (eapply Qlt_le_trans; [|exact H1]; reflexivity).
  split.
  - apply Qle_shift_div_l; [exact Hpos|].
    apply (Qmult_le_l _ _ (1 # 5)); [reflexivity|].
    setoid_replace ((1 # 5) * (5 * f))%Q with f by ring.
    setoid_replace ((1 # 5) * 1)%Q with (1 / 5)%Q by reflexivity. exact H2.
  - apply Qle_shift_div_r; [exact Hpos|].
    apply (Qmult_le_l _ _ (1 # 30)); [reflexivity|].
    setoid_replace ((1 # 30) * (30 * f))%Q with f by ring.
    setoid_replace ((1 # 30) * 1)%Q with (1 / 30)%Q by reflexivity. exact H1.
Qed.

Lemma detectSeiches_In (residuals : list DataPoint) (e : DetectedEvent) :
  In e (detectSeiches M residuals) -> seicheEventOK residuals e.
Proof.
  unfold detectSeiches. cbv zeta. intros H.
  apply in_concat in H. destruct H as [evs [Hevs He]].
  apply mapi_from_In_elem in Hevs. destruct Hevs as [f [i [Hf ->]]].
  destruct (Num.geb f seicheFreqMin) eqn:E1; cbn [andb] in He; [|destruct He].
  destruct (Num.leb f seicheFreqMax) eqn:E2; [|destruct He].
  destruct (Num.gtb _ _) eqn:E3; [|destruct He].
  apply mapi_from_In_elem in He. destruct He as [b [k [Hb ->]]].
  apply geb_true in E1. apply leb_true in E2.
  unfold seicheEventOK. cbv beta.
  unfold type, confidence, period, startTime, endTime.
  split; [reflexivity|]. split.
  - match goal with |- (if ?c then _ else _) <> _ => destruct c end; discriminate.
  - exists f. split; [exact Hf|]. split; [split; assumption|].
    split; [reflexivity|]. split; [apply seiche_band_period; split; assumption|].
    exists b. split; [exact Hb | split; reflexivity].
Qed.

End Seiche.

(** X14. Every event of the seiche detector is a "Seiche" of Medium or High
    confidence whose period is [1 / f] for a spectral bin [f] of the band
    [1/30, 1/5] cycles per minute, hence between 5 and 30 minutes, and
    whose span is one of the energy bursts found at that frequency. *)
Theorem seiche_events_in_band (M : MathLib) (residuals : list DataPoint) :
  Forall (seicheEventOK M residuals) (detectSeiches M residuals).
Proof. apply Forall_forall. intros e. apply detectSeiches_In. Qed.

(** ** The spectral analyzer: powers and the dominant period *)

(** X15. The powers of the spectral analyzer are never negative.  Its
    dominant frequency and period are either both 0 (always so for a
    series of at most two samples) or the frequency is one of the returned
    bins, positive and below 0.5 cycles per minute, and the period is the
    quotient [1 / dominantFrequency], more than 2 minutes. *)
Theorem spectral_dominant_period (M : MathLib) (input : list DataPoint) :
  let sp := computeSpectralAnalysis M input in
  Forall (fun p => (0 <= p)%Q) (powers sp)
  /\ ((dominantFrequency sp = 0%Q /\ dominantPeriod sp = 0%Q)
      \/ (In (dominantFrequency sp) (frequencies sp)
          /\ (0 < dominantFrequency sp)%Q
          /\ (dominantFrequency sp < 1 # 2)%Q
          /\ dominantPeriod sp = (1 / dominantFrequency sp)%Q
          /\ (2 < dominantPeriod sp)%Q
          /\ (3 <= length input)%nat)).
Proof.
  intros sp. unfold sp. rewrite computeSpectralAnalysis_bins.
  cbn [powers frequencies dominantFrequency dominantPeriod].
  rewrite !length_map, !length_seq.
  set (n := length input).
  set (freqStep := ((1 # 2) / (Num.ofNat n / 2))%Q).
  set (fs := map (binFrequency freqStep) (seq 0 (binCount n))).
  set (ps := map (binPower M (map seaLevel input) freqStep) (seq 0 (binCount n))).
  split.
  - apply Forall_forall. intros p Hp. unfold ps in Hp. apply in_map_iff in Hp.
    destruct Hp as [i [<- Hi]]. apply in_seq in Hi.
    assert (Hn : (0 < n)%nat) by (pose proof (binCount_le n); lia).
    unfold binPower. rewrite length_map. fold n.
    apply Qle_shift_div_l; [apply (ofNat_lt 0 n); exact Hn|].
    rewrite Qmult_0_l. apply Qabs_nonneg.
  - destruct (dominant_fold_inv fs ps (binCount n)) as [_ [_ Hsel]].
    destruct Hsel as [E | [i [Hi [Hfi [E _]]]]]; rewrite E; cbn [snd].
    + left. split; reflexivity.
    + right.
      assert (Hin : In (nth i fs 0%Q) fs).
      { apply nth_In. unfold fs. now rewrite length_map, length_seq. }
      split; [exact Hin|]. clear Hin.
      unfold fs in Hfi |- *. rewrite nth_map_seq in Hfi |- * by assumption.
      assert (H2 : (2 * i < n)%nat) by (apply binCount_half; exact Hi).
      assert (Hn : (0 < Num.ofNat n)%Q) by (apply (ofNat_lt 0 n); lia).
      unfold binFrequency, freqStep in Hfi |- *.
      assert (Ef := @bin_frequency i n ltac:(lia)).
      set (f := (Num.ofNat i * ((1 # 2) / (Num.ofNat n / 2)))%Q) in *.
      assert (Emul : (f * Num.ofNat n == Num.ofNat i)%Q).
      { rewrite Ef. field. lra. }
      assert (Hi1 : (1 <= i)%nat).
      { destruct i as [|i]; [|lia]. exfalso.
        change (Num.ofNat 0) with 0%Q in Emul. nra. }
      assert (Hlt : (2 * Num.ofNat i < Num.ofNat n)%Q)
        by (rewrite <- ofNat_double; apply ofNat_lt; exact H2).
      apply gtb_true in Hfi. rewrite Hfi. apply gtb_true in Hfi.
      split; [exact Hfi|]. split; [nra|]. split; [reflexivity|]. split; [|lia].
      apply Qlt_shift_div_l; [exact Hfi | nra].
Qed.

(** ** Series shorter than the windows *)

Lemma concat_mapi_nil {A B : Type} (g : A -> nat -> list B) (l : list A) :
  (forall x k, g x k = []) -> forall i, concat (mapi_from g i l) = [].
Proof.
  intros Hg. induction l as [|x l IH]; intros i; [reflexivity|].
  cbn [mapi_from concat]. now rewrite Hg, IH.
Qed.

Lemma findEnergyBursts_short (M : MathLib) (input : list DataPoint) (frequency period : Q) :
  (length input <= 10)%nat -> findEnergyBursts M input frequency period = [].
Proof.
  intros Hshort. unfold findEnergyBursts.
  destruct (length input) as [|n] eqn:En; [reflexivity|].
  cbn [findEnergyBursts_loop]. rewrite En.
  destruct (Z.ltb_spec (Z.of_nat 0)
              (Z.of_nat (S n) - Z.of_nat (Z.to_nat (Z.max 10 (Qfloor (period * 2))))));
    [lia | reflexivity].
Qed.

(** X16. On a residual series of at most 10 samples there is no moving
    variance, and neither the seiche detector nor the aliased-activity
    detector emits anything. *)
Theorem short_series_no_window_events (M : MathLib) (residuals : list DataPoint) :
  (length residuals <= 10)%nat ->
  calculateMovingVariance residuals 10 = []
  /\ detectSeiches M residuals = []
  /\ detectAliasedActivity M residuals = [].
Proof.
  intros Hshort.
  assert (Hvar : calculateMovingVariance residuals 10 = []).
  { unfold calculateMovingVariance.
    replace (length residuals - 10)%nat with 0%nat by lia. reflexivity. }
  split; [exact Hvar|]. split.
  - unfold detectSeiches. cbv zeta. unfold mapi. apply concat_mapi_nil.
    intros f k. rewrite findEnergyBursts_short by assumption.
    destruct (_ && _); [|reflexivity]. destruct (Num.gtb _ _); reflexivity.
  - unfold detectAliasedActivity. rewrite Hvar.
    destruct (findIndex _ _); [|reflexivity].
    destruct (Num.gtb _ _); reflexivity.
Qed.

Lemma short_series_no_window_events_witness :
  calculateMovingVariance (constantRun 0 1 10) 10 = []
  /\ detectSeiches refMath (constantRun 0 1 10) = []
  /\ detectAliasedActivity refMath (constantRun 0 1 10) = [].
Proof.
  apply (@short_series_no_window_events refMath (constantRun 0 1 10)).
  apply Nat.leb_le. reflexivity.
Defined.

(** ** Confidence grades across the detectors *)

(** An event of a detector other than the aliased-activity detector. *)
Definition graded (e : DetectedEvent) : Prop :=
  confidence e <> Low /\ type e <> AliasedActivity.

Section Grades.
Variable M : MathLib.

Lemma tidalPhases_graded (input tidal : list DataPoint) :
  Forall graded (detectTidalPhases input tidal).
Proof.
  apply Forall_forall. intros e He. apply detectTidalPhases_In in He.
  destruct He as [i [_ [_ He]]]. unfold tidalPhasesAt in He. cbv zeta in He.
  apply in_app_or in He. destruct He as [He|He]; [|apply in_app_or in He; destruct He as [He|He]].
  - destruct (_ && _); [|destruct He]. destruct He as [<-|[]]. split; discriminate.
  - destruct (_ && _); [|destruct He]. destruct He as [<-|[]]. split; discriminate.
  - destruct (Num.gtb (Qabs _) tideThreshold); [|destruct He]. destruct He as [<-|[]].
    unfold graded, confidence, type.
    split; [destruct (Num.gtb (Qabs _) _) | destruct (Num.gtb _ 0)]; discriminate.
Qed.

Lemma stormSurges_graded (residuals : list DataPoint) :
  Forall graded (detectStormSurges residuals).
Proof.
  assert (H : Forall (surgeEventOK residuals) (detectStormSurges residuals)).
  { unfold detectStormSurges.
    apply (@fold_left_invariant _ _ (surgeInv residuals) (surge_step residuals)).
    - split; [constructor | discriminate].
    - intros st i Hi Hinv. apply in_seq in Hi. apply surge_step_inv; [lia | exact Hinv]. }
  eapply Forall_impl; [|exact H].
  intros e [Ht [Hc _]]. split; [exact Hc | rewrite Ht; discriminate].
Qed.

Lemma seiches_graded (residuals : list DataPoint) :
  Forall graded (detectSeiches M residuals).
Proof.
  apply Forall_forall. intros e He. apply detectSeiches_In in He.
  destruct He as [Ht [Hc _]]. split; [exact Hc | rewrite Ht; discriminate].
Qed.

Lemma infragravity_graded (residuals : list DataPoint) :
  Forall graded (detectInfragravityWaves M residuals).
Proof.
  unfold detectInfragravityWaves. cbv zeta.
  destruct (Num.gtb _ _); [|constructor].
  constructor; [|constructor]. unfold graded, confidence, type.
  split; [|discriminate].
  match goal with |- (if ?c then _ else _) <> _ => destruct c end; discriminate.
Qed.

Lemma artifacts_graded (input : list DataPoint) :
  Forall graded (detectDataArtifacts input).
Proof.
  unfold detectDataArtifacts. cbv zeta.
  rewrite (flat_map_filter (fun i => Num.gtb (changeAt input i) spikeThreshold)
             (spikeEvent input)).
  destruct (flatline_fold_appends input (seq 1 (length input - 1))
              (mkFlat None None
                 (map (spikeEvent input)
                    (filter (fun i => Num.gtb (changeAt input i) spikeThreshold)
                       (seq 1 (length input - 1)))))) as [extra [E HF]].
  rewrite E. cbn [flatEvents]. apply Forall_app. split.
  - apply Forall_forall. intros e He. apply in_map_iff in He.
    destruct He as [i [<- _]]. split; discriminate.
  - eapply Forall_impl; [|exact HF].
    intros e [Ht [Hc _]]. split; [rewrite Hc | rewrite Ht]; discriminate.
Qed.

Lemma extremeLevels_graded (cfg : AnalysisConfig) (input : list DataPoint) :
  Forall graded (detectExtremeLevels cfg input).
Proof.
  apply Forall_forall. intros e He. unfold detectExtremeLevels in He. cbv zeta in He.
  apply in_flat_map in He. destruct He as [p [_ He]].
  unfold extremeAt in He. cbv zeta in He.
  destruct (_ || _); [|destruct He]. destruct He as [<-|[]].
  unfold graded, confidence, type. split; [|discriminate].
  match goal with |- (if ?c then _ else _) <> _ => destruct c end; discriminate.
Qed.

Lemma filter_all {A : Type} (p : A -> bool) (l : list A) :
  Forall (fun x => p x = true) l -> filter p l = l.
Proof.
  induction 1 as [|x l Hx _ IH]; [reflexivity|].
  cbn [filter]. now rewrite Hx, IH.
Qed.

Lemma filter_none {A : Type} (p : A -> bool) (l : list A) :
  Forall (fun x => p x = false) l -> filter p l = [].
Proof.
  induction 1 as [|x l Hx _ IH]; [reflexivity|].
  cbn [filter]. now rewrite Hx, IH.
Qed.

End Grades.

(** X17. Of the seven detectors only the aliased-activity detector grades
    its events Low, and it grades all of them Low.  So with the threshold
    at Low the analysis returns every detected event, with the threshold at
    Medium it returns exactly the events of the six other detectors, and
    with the threshold at High it returns no "Aliased Activity" event
    either. *)
Theorem low_confidence_is_aliased_only (M : MathLib) (this : PoseidonAnalysisEngine) :
  let pd := decompose M this in
  let others :=
    detectTidalPhases (original pd) (tidal pd)
    ++ detectStormSurges (residuals pd)
    ++ detectSeiches M (residuals pd)
    ++ detectInfragravityWaves M (residuals pd)
    ++ detectDataArtifacts (original pd)
    ++ detectExtremeLevels (config this) (original pd) in
  let aliased := detectAliasedActivity M (residuals pd) in
  Forall graded others
  /\ Forall (fun e => confidence e = Low /\ type e = AliasedActivity) aliased
  /\ (confidenceThreshold (config this) = Low ->
      snd (runFullAnalysis M this) = others ++ aliased)
  /\ (confidenceThreshold (config this) = Medium ->
      snd (runFullAnalysis M this) = others)
  /\ (confidenceThreshold (config this) = High ->
      snd (runFullAnalysis M this) = filterByConfidence High others).
Proof.
  intros pd others aliased.
  assert (Hothers : Forall graded others).
  { unfold others. repeat (apply Forall_app; split).
    - apply tidalPhases_graded.
    - apply stormSurges_graded.
    - apply seiches_graded.
    - apply infragravity_graded.
    - apply artifacts_graded.
    - apply extremeLevels_graded. }
  assert (Haliased : Forall (fun e => confidence e = Low /\ type e = AliasedActivity) aliased).
  { apply Forall_forall. intros e He.
    destruct (detectAliasedActivity_kind M _ _ He) as [Ht Hc]. split; assumption. }
  assert (Hall : detectAll M this pd = others ++ aliased).
  { unfold detectAll, others, aliased. now rewrite <- !app_assoc. }
  split; [exact Hothers|]. split; [exact Haliased|].
  unfold runFullAnalysis. cbn [snd]. fold pd. rewrite Hall.
  unfold filterByConfidence. rewrite filter_app.
  split; [|split]; intros ->; cbn [confidenceLevels].
  - rewrite !filter_all; [reflexivity | |]; apply Forall_forall; intros; reflexivity.
  - rewrite filter_all, filter_none; [apply app_nil_r | |].
    + eapply Forall_impl; [|exact Haliased]. intros e [Hc _]. now rewrite Hc.
    + eapply Forall_impl; [|exact Hothers]. intros e [Hc _].
      destruct (confidence e); [congruence | reflexivity | reflexivity].
  - rewrite (@filter_none _ _ aliased); [apply app_nil_r|].
    eapply Forall_impl; [|exact Haliased]. intros e [Hc _]. now rewrite Hc.
Qed.

(** ** Percentile cutoffs of a short series *)

Section SortedLevels.

Definition levelLe (x y : Q) : Prop := Num.leb x y = true.

Lemma insert_levels_sorted (x : Q) (l : list Q) :
  StronglySorted levelLe l -> StronglySorted levelLe (insert Num.leb x l).
Proof.
  induction 1 as [|y l Hl IH Hy]; cbn [insert]; [repeat constructor|].
  destruct (Num.leb x y) eqn:E.
  - constructor; [now constructor|]. constructor; [exact E|].
    rewrite Forall_forall in *. intros z Hz. unfold levelLe in *.
    apply leb_true. apply leb_true in E. specialize (Hy z Hz). apply leb_true in Hy.
    now apply Qle_trans with y.
  - constructor; [exact IH|].
    rewrite Forall_forall in *. intros z Hz.
    apply (Permutation_in _ (insert_perm Num.leb x l)) in Hz.
    destruct Hz as [<-|Hz]; [|now apply Hy].
    apply leb_true. apply leb_false in E. now apply Qlt_le_weak.
Qed.

Lemma sortBy_levels_sorted (l : list Q) : StronglySorted levelLe (sortBy Num.leb l).
Proof.
  induction l as [|x l IH]; cbn [sortBy fold_right]; [constructor|].
  now apply insert_levels_sorted.
Qed.

Lemma StronglySorted_nth_le (l : list Q) :
  StronglySorted levelLe l ->
  forall i j, (i <= j < length l)%nat -> (nth i l 0 <= nth j l 0)%Q.
Proof.
  induction 1 as [|x l Hl IH Hx]; intros i j Hij; [simpl in Hij; lia|].
  destruct i as [|i]; destruct j as [|j]; cbn [nth]; try lia.
  - apply Qle_refl.
  - rewrite Forall_forall in Hx. apply leb_true. apply Hx. apply nth_In.
    simpl in Hij. lia.
  - apply IH. simpl in Hij. lia.
Qed.

Lemma Qfloor_unique (x : Q) (z : Z) :
  (inject_Z z <= x)%Q -> (x < inject_Z (z + 1))%Q -> Qfloor x = z.
Proof.
  intros H1 H2.
  assert (Hlo : (z <= Qfloor x)%Z).
  { rewrite <- (Qfloor_Z z). now apply Qfloor_resp_le. }
  assert (Hhi : (Qfloor x < z + 1)%Z).
  { rewrite Zlt_Qlt. eapply Qle_lt_trans; [apply Qfloor_le | exact H2]. }
  lia.
Qed.

End SortedLevels.

(** X18. For a series of fewer than 100 samples the two percentile cutoffs
    of the extreme-level detector are the smallest and the largest level of
    the series: the 1st-percentile index [floor(0.01 n)] is 0 and the
    99th-percentile index [floor(0.99 n)] is [n - 1] on the sorted levels.
    So the percentile test flags exactly the samples that attain the
    minimum or the maximum. *)
Theorem short_series_percentiles (input : list DataPoint) :
  (0 < length input < 100)%nat ->
  let sorted := sortBy Num.leb (map seaLevel input) in
  let p1 := percentileOf sorted (1 # 100) in
  let p99 := percentileOf sorted (99 # 100) in
  p1 = nth 0 sorted 0%Q
  /\ p99 = nth (length input - 1) sorted 0%Q
  /\ In p1 (map seaLevel input)
  /\ In p99 (map seaLevel input)
  /\ forall point, In point input -> (p1 <= seaLevel point <= p99)%Q.
Proof.
  intros Hn sorted p1 p99.
  assert (Hlen : length sorted = length input)
    by (unfold sorted; now rewrite sortBy_length, length_map).
  assert (Hq0 : (0 < Num.ofNat (length input))%Q) by (apply (ofNat_lt 0); lia).
  assert (Hq100 : (Num.ofNat (length input) < 100)%Q).
  { change 100%Q with (Num.ofNat 100). apply ofNat_lt. lia. }
  assert (E1 : p1 = nth 0 sorted 0%Q).
  { unfold p1, percentileOf. rewrite Hlen.
    rewrite (@Qfloor_unique _ 0%Z); [reflexivity | |].
    - change (inject_Z 0) with 0%Q. lra.
    - change (inject_Z (0 + 1)) with 1%Q. lra. }
  assert (E99 : p99 = nth (length input - 1) sorted 0%Q).
  { unfold p99, percentileOf. rewrite Hlen.
    assert (Em : (Num.ofNat (length input)
                  == inject_Z (Z.of_nat (length input) - 1) + 1)%Q).
    { unfold Num.ofNat. change 1%Q with (inject_Z 1). rewrite <- inject_Z_plus.
      replace (Z.of_nat (length input) - 1 + 1)%Z with (Z.of_nat (length input)) by lia.
      reflexivity. }
    rewrite (@Qfloor_unique _ (Z.of_nat (length input) - 1)%Z).
    - f_equal. lia.
    - lra.
    - rewrite inject_Z_plus. change (inject_Z 1) with 1%Q. lra. }
  assert (Hin : forall k, (k < length input)%nat -> In (nth k sorted 0%Q) (map seaLevel input)).
  { intros k Hk. apply (sortBy_In Num.leb). apply nth_In. fold sorted. lia. }
  split; [exact E1|]. split; [exact E99|].
  split; [rewrite E1; apply Hin; lia|]. split; [rewrite E99; apply Hin; lia|].
  intros point Hp.
  assert (Hs : In (seaLevel point) sorted).
  { apply (sortBy_In Num.leb). now apply in_map. }
  apply (In_nth _ _ 0%Q) in Hs. destruct Hs as [k [Hk <-]].
  rewrite E1, E99. split; apply StronglySorted_nth_le;
    try apply sortBy_levels_sorted; lia.
Qed.

Lemma short_series_percentiles_witness :
  percentileOf (sortBy Num.leb (map seaLevel threeLevels)) (1 # 100) = 1%Q
  /\ percentileOf (sortBy Num.leb (map seaLevel threeLevels)) (99 # 100) = 3%Q.
Proof.
  destruct (@short_series_percentiles threeLevels) as [E1 [E99 _]];
    [simpl; lia|].
  split; [rewrite E1 | rewrite E99]; reflexivity.
Defined.

(** ** The storm-surge detector: sustained runs are reported *)

Section SurgeComplete.
Variable r : list DataPoint.

Lemma surge_step_events_grow (st : SurgeState) (i : nat) (e : DetectedEvent) :
  In e (surgeEvents st) -> In e (surgeEvents (surge_step r st i)).
Proof.
  intros He. unfold surge_step.
  destruct (Num.gtb (Qabs (seaLevel (at_ r i))) surgeThreshold).
  - destruct (surgeStart st); [destruct (Num.gtb _ (maxSurge st))|]; exact He.
  - destruct (surgeStart st); [|exact He]. cbn [surgeEvents].
    destruct (sustainedDuration <=? _)%nat; [apply in_or_app; now left | exact He].
Qed.

Lemma surge_fold_events_grow (l : list nat) (e : DetectedEvent) :
  forall st, In e (surgeEvents st) -> In e (surgeEvents (fold_left (surge_step r) l st)).
Proof.
  induction l as [|i l IH]; intros st He; [exact He|].
  cbn [fold_left]. apply IH. now apply surge_step_events_grow.
Qed.

Lemma surge_step_closed (st : SurgeState) (i : nat) :
  ~ overThreshold (at_ r i) -> surgeStart (surge_step r st i) = None.
Proof.
  intros Hq. unfold surge_step.
  destruct (Num.gtb (Qabs (seaLevel (at_ r i))) surgeThreshold) eqn:E.
  - apply gtb_true in E. contradiction.
  - destruct (surgeStart st) eqn:Es; [reflexivity | exact Es].
Qed.

Lemma surge_fold_open_stays (k : nat) :
  forall a st s,
    surgeStart st = Some s ->
    (forall j, (a <= j < a + k)%nat -> overThreshold (at_ r j)) ->
    surgeStart (fold_left (surge_step r) (seq a k) st) = Some s.
Proof.
  induction k as [|k IH]; intros a st s Hs Hover; [exact Hs|].
  cbn [seq fold_left]. apply IH.
  - unfold surge_step.
    assert (E : Num.gtb (Qabs (seaLevel (at_ r a))) surgeThreshold = true)
      by (apply gtb_true, Hover; lia).
    rewrite E, Hs. destruct (Num.gtb _ (maxSurge st)); [reflexivity | exact Hs].
  - intros j Hj. apply Hover. lia.
Qed.

Lemma surge_fold_opens (k : nat) (a : nat) (st : SurgeState) :
  surgeStart st = None -> (0 < k)%nat ->
  (forall j, (a <= j < a + k)%nat -> overThreshold (at_ r j)) ->
  surgeStart (fold_left (surge_step r) (seq a k) st) = Some a.
Proof.
  intros Hnone Hk Hover. destruct k as [|k]; [lia|].
  cbn [seq fold_left]. apply surge_fold_open_stays.
  - unfold surge_step.
    assert (E : Num.gtb (Qabs (seaLevel (at_ r a))) surgeThreshold = true)
      by (apply gtb_true, Hover; lia).
    now rewrite E, Hnone.
  - intros j Hj. apply Hover. lia.
Qed.

Lemma surge_fold_closed_after (l : list nat) (i : nat) (st : SurgeState) :
  ~ overThreshold (at_ r i) ->
  surgeStart (fold_left (surge_step r) (l ++ [i]) st) = None.
Proof.
  intros Hq. rewrite fold_left_app. cbn [fold_left]. now apply surge_step_closed.
Qed.

End SurgeComplete.

(** X19. A run of at least 60 consecutive residuals above 0.15 m in
    magnitude that begins the series or follows a sample at or below the
    threshold, and that is followed by such a sample, is reported: the
    detector emits a "Storm Surge" event from the first to the last sample
    of the run whose [duration_minutes] is the length of the run. *)
Theorem sustained_surge_reported (pre run post : list DataPoint) (q : DataPoint) :
  (pre = [] \/ ~ overThreshold (at_ pre (length pre - 1))) ->
  Forall overThreshold run ->
  (60 <= length run)%nat ->
  ~ overThreshold q ->
  exists e,
    In e (detectStormSurges (pre ++ run ++ q :: post))
    /\ type e = StormSurge
    /\ startTime e = timestamp (at_ run 0)
    /\ endTime e = Some (timestamp (at_ run (length run - 1)))
    /\ In ("duration_minutes"%string, PNum (Num.ofNat (length run))) (properties e).
Proof.
  intros Hpre Hrun Hlen Hq.
  set (R := pre ++ run ++ q :: post).
  set (a := length pre). set (k := length run).
  assert (Hat_run : forall j, (a <= j < a + k)%nat -> at_ R j = at_ run (j - a)).
  { intros j Hj. unfold R. rewrite at_app_r by (fold a; lia). apply at_app_l. fold a k. lia. }
  assert (Hat_q : at_ R (a + k) = q).
  { unfold R. rewrite at_app_r by (fold a; lia). rewrite at_app_r by (fold a k; lia).
    fold a k. replace (a + k - a - k)%nat with 0%nat by lia. reflexivity. }
  assert (Hover : forall j, (a <= j < a + k)%nat -> overThreshold (at_ R j)).
  { intros j Hj. rewrite Hat_run by assumption. apply Forall_at; [exact Hrun | fold k; lia]. }
  assert (Escan : seq 0 (length R)
                  = seq 0 a ++ seq a k ++ ((a + k)%nat :: seq (S (a + k)) (length post))).
  { unfold R. rewrite !length_app. cbn [length]. fold a k.
    rewrite seq_app, Nat.add_0_l. f_equal.
    rewrite seq_app. reflexivity. }
  unfold detectStormSurges. fold R. rewrite Escan, !fold_left_app, fold_left_cons.
  set (st1 := fold_left (surge_step R) (seq 0 a) (mkSurge None 0 None [])).
  assert (H1 : surgeStart st1 = None).
  { unfold st1. destruct Hpre as [E|Hlast].
    - unfold a. rewrite E. reflexivity.
    - destruct a as [|a'] eqn:Ea; [reflexivity|].
      rewrite seq_S. apply surge_fold_closed_after.
      unfold R. rewrite at_app_l by (fold a; lia).
      replace (0 + a')%nat with (length pre - 1)%nat by (fold a; lia). exact Hlast. }
  set (st2 := fold_left (surge_step R) (seq a k) st1).
  assert (H2 : surgeStart st2 = Some a).
  { unfold st2. apply surge_fold_opens; [exact H1 | fold k in Hlen; lia | exact Hover]. }
  set (ev := mkEvent (IdIndexed "storm-surge" (Z.of_nat a)) StormSurge
               (timestamp (at_ R a)) (Some (timestamp (at_ R (a + k - 1))))
               (if Num.gtb (maxSurge st2) (surgeThreshold * 2) then High else Medium)
               (Some (maxSurge st2)) None (maxSurgeTime st2)
               [("peak_amplitude", PNum (maxSurge st2));
                ("duration_minutes", PNum (Num.ofNat (a + k - a)));
                ("surge_type",
                 PText (if Num.gtb (seaLevel (at_ R a)) 0
                        then "positive" else "negative"))]%string).
  assert (H3 : In ev (surgeEvents (surge_step R st2 (a + k)))).
  { unfold surge_step. rewrite Hat_q.
    assert (E : Num.gtb (Qabs (seaLevel q)) surgeThreshold = false).
    { apply not_true_iff_false. intros E. apply gtb_true in E. contradiction. }
    rewrite E, H2. cbn [surgeEvents].
    assert (Ed : (sustainedDuration <=? a + k - a)%nat = true).
    { apply Nat.leb_le. unfold sustainedDuration. fold k in Hlen. lia. }
    rewrite Ed. apply in_or_app. right. now left. }
  exists ev. split; [apply surge_fold_events_grow; exact H3|].
  unfold ev. cbn [type startTime endTime properties].
  split; [reflexivity|].
  rewrite (Hat_run a) by (fold k in Hlen; lia).
  rewrite (Hat_run (a + k - 1)%nat) by (fold k in Hlen; lia).
  replace (a - a)%nat with 0%nat by lia.
  replace (a + k - 1 - a)%nat with (k - 1)%nat by lia.
  replace (a + k - a)%nat with k by lia.
  split; [reflexivity|]. split; [reflexivity|]. right. now left.
Qed.

Lemma sustained_surge_reported_witness :
  exists e,
    In e (detectStormSurges
            (constantRun 0 0 10 ++ constantRun 600000 (4 # 10) 70
             ++ mkPoint 4800000 0 (-1) :: []))
    /\ type e = StormSurge
    /\ startTime e = timestamp (at_ (constantRun 600000 (4 # 10) 70) 0)
    /\ endTime e
       = Some (timestamp (at_ (constantRun 600000 (4 # 10) 70)
                            (length (constantRun 600000 (4 # 10) 70) - 1)))
    /\ In ("duration_minutes"%string,
           PNum (Num.ofNat (length (constantRun 600000 (4 # 10) 70)))) (properties e).
Proof.
  apply (@sustained_surge_reported (constantRun 0 0 10) (constantRun 600000 (4 # 10) 70) []
           (mkPoint 4800000 0 (-1))).
  - right. intros H. vm_compute in H. discriminate H.
  - apply constantRun_Forall. intros t i. reflexivity.
  - apply Nat.leb_le. reflexivity.
  - intros H. vm_compute in H. discriminate H.
Defined.

(** ** The extreme-level detector: one event per flagged sample *)

Lemma flat_map_Subseq {A B C : Type} (f : A -> list B) (g : B -> C) (h : A -> C)
    (l : list A) :
  (forall x, f x = [] \/ exists y, f x = [y] /\ g y = h x) ->
  Subseq (map g (flat_map f l)) (map h l).
Proof.
  intros Hf. induction l as [|x l IH]; [constructor|].
  cbn [flat_map map]. destruct (Hf x) as [E|[y [E Hy]]]; rewrite E.
  - cbn [app map]. now constructor.
  - cbn [app map]. rewrite Hy. now constructor.
Qed.

Lemma Subseq_length {A : Type} (s l : list A) : Subseq s l -> (length s <= length l)%nat.
Proof. induction 1; simpl; lia. Qed.

(** X20. The extreme-level detector emits at most one event per sample, in
    the order of the series, each starting at the timestamp of its sample
    and carrying as amplitude the distance of its level from the mean. *)
Theorem extreme_events_follow_series (cfg : AnalysisConfig) (input : list DataPoint) :
  Subseq (map startTime (detectExtremeLevels cfg input)) (map timestamp input)
  /\ (length (detectExtremeLevels cfg input) <= length input)%nat
  /\ Forall (fun e => type e = ExtremeLevel /\ endTime e = None
                      /\ exists a, amplitude e = Some a /\ (0 <= a)%Q)
       (detectExtremeLevels cfg input).
Proof.
  assert (Hsub : Subseq (map startTime (detectExtremeLevels cfg input)) (map timestamp input)).
  { unfold detectExtremeLevels. cbv zeta. apply flat_map_Subseq.
    intros p. unfold extremeAt. cbv zeta.
    destruct (_ || _); [right | now left].
    eexists. split; reflexivity. }
  split; [exact Hsub|]. split.
  - apply Subseq_length in Hsub. now rewrite !length_map in Hsub.
  - apply Forall_forall. intros e He. unfold detectExtremeLevels in He. cbv zeta in He.
    apply in_flat_map in He. destruct He as [p [_ He]].
    unfold extremeAt in He. cbv zeta in He.
    destruct (_ || _); [|destruct He]. destruct He as [<-|[]].
    split; [reflexivity|]. split; [reflexivity|].
    eexists. split; [reflexivity | apply Qabs_nonneg].
Qed.
